(** * Hyperpolyglot: a shallow embedding of the detection pipeline

    Text ([&str]) is modelled as the list of its Unicode scalar values
    ([list N]); byte offsets are recovered through [utf8_len].  Language names
    are the static [&'static str] of the generated tables, modelled as
    [string].  The generated tables (the [phf] maps written by the build
    script) are not part of the sources; every statement below is quantified
    over them through the record [KnowledgeBase]. *)

From Stdlib Require Import List String Ascii NArith ZArith Arith Bool Lia PrimFloat Permutation.
From Stdlib Require Import FloatOps FloatAxioms SpecFloat.
Import ListNotations.
Set Warnings "-register-all,-abstract-large-number".

(* ------------------------------------------------------------------ *)
(** ** Characters and text *)

Module Text.

Definition text := list N.

(** ASCII string literal to text. *)
Definition of_string (s : string) : text :=
  map (fun a => N.of_nat (nat_of_ascii a)) (list_ascii_of_string s).

Fixpoint eqb (a b : text) : bool :=
  match a, b with
  | [], [] => true
  | x :: a', y :: b' => N.eqb x y && eqb a' b'
  | _, _ => false
  end.

Lemma eqb_eq : forall a b, eqb a b = true <-> a = b.
Proof.
  induction a as [|x a IH]; destruct b as [|y b]; simpl; split; intro H;
    try congruence; try discriminate.
  - apply andb_prop in H as [H1 H2]. apply N.eqb_eq in H1.
    apply IH in H2. subst. reflexivity.
  - injection H as -> ->. rewrite N.eqb_refl. simpl. apply IH. reflexivity.
Qed.

(** [char::len_utf8]. *)
Definition utf8_len (c : N) : nat :=
  if (c <? 128)%N then 1
  else if (c <? 2048)%N then 2
  else if (c <? 65536)%N then 3
  else 4.

(** [str::len]: the length in bytes. *)
Fixpoint byte_len (t : text) : nat :=
  match t with
  | [] => 0
  | c :: r => utf8_len c + byte_len r
  end.

Definition in_range (lo hi c : N) : bool := (lo <=? c)%N && (c <=? hi)%N.

Definition is_ascii_digit (c : N) : bool := in_range 48 57 c.
Definition is_ascii_upper (c : N) : bool := in_range 65 90 c.
Definition is_ascii_lower (c : N) : bool := in_range 97 122 c.
Definition is_ascii_alphabetic (c : N) : bool := is_ascii_upper c || is_ascii_lower c.
Definition is_ascii_alphanumeric (c : N) : bool := is_ascii_alphabetic c || is_ascii_digit c.
Definition is_ascii_hexdigit (c : N) : bool :=
  is_ascii_digit c || in_range 65 70 c || in_range 97 102 c.
(** [char::is_ascii_punctuation]: the ASCII ranges 33-47, 58-64, 91-96, 123-126. *)
Definition is_ascii_punctuation (c : N) : bool :=
  in_range 33 47 c || in_range 58 64 c || in_range 91 96 c || in_range 123 126 c.

(** [char::is_whitespace], the Unicode [White_Space] property (also the
    class [\s] of the [regex] and [logos] crates). *)
Definition is_whitespace (c : N) : bool :=
  in_range 9 13 c || (c =? 32)%N || (c =? 133)%N || (c =? 160)%N
  || (c =? 5760)%N || in_range 8192 8202 c || (c =? 8232)%N || (c =? 8233)%N
  || (c =? 8239)%N || (c =? 8287)%N || (c =? 12288)%N.

(** [char::to_ascii_lowercase]. *)
Definition to_ascii_lowercase (c : N) : N :=
  if is_ascii_upper c then (c + 32)%N else c.

Definition starts_with (prefix s : text) : bool := eqb prefix (firstn (List.length prefix) s).

(** [split_whitespace]: the maximal runs of non-whitespace characters. *)
Fixpoint split_ws_aux (cur : text) (s : text) : list text :=
  match s with
  | [] => match cur with [] => [] | _ => [rev cur] end
  | c :: r =>
      if is_whitespace c then
        match cur with [] => split_ws_aux [] r | _ => rev cur :: split_ws_aux [] r end
      else split_ws_aux (c :: cur) r
  end.
Definition split_whitespace (s : text) : list text := split_ws_aux [] s.

(** [str::split(c)]: the pieces between occurrences of [c] (at least one). *)
Fixpoint split_on_aux (sep : N) (cur : text) (s : text) : list text :=
  match s with
  | [] => [rev cur]
  | c :: r => if (c =? sep)%N then rev cur :: split_on_aux sep [] r
              else split_on_aux sep (c :: cur) r
  end.
Definition split_on (sep : N) (s : text) : list text := split_on_aux sep [] s.

End Text.

Import Text.

(** Association-list lookup, the model of a [phf::Map] (keys are unique). *)
Fixpoint assoc {K V : Type} (eqk : K -> K -> bool) (k : K) (m : list (K * V))
  : option V :=
  match m with
  | [] => None
  | (k', v) :: m' => if eqk k k' then Some v else assoc eqk k m'
  end.

(** [phf::Map::get_key]: the stored key equal to [k]. *)
Fixpoint assoc_key {K V : Type} (eqk : K -> K -> bool) (k : K) (m : list (K * V))
  : option K :=
  match m with
  | [] => None
  | (k', _) :: m' => if eqk k k' then Some k' else assoc_key eqk k m'
  end.

(** [Vec::contains] on language names. *)
Definition contains (l : list string) (x : string) : bool := existsb (String.eqb x) l.

(* ------------------------------------------------------------------ *)
(** ** [src/src/tokenizer.rs]: the [logos] lexer used by the classifier *)

Module Logos.

(** [[A-Za-z0-9_]]. *)
Definition is_text_char (c : N) : bool := is_ascii_alphanumeric c || (c =? 95)%N.

(** [enum Token]: [Text] for [[A-Za-z0-9_]+], [Symbol] for one character of
    [[^A-Za-z0-9_\s]], [Error] for input no pattern matches (whitespace). *)
Inductive Token :=
| Text (t : text)
| Symbol (t : text)
| Error.

(** The lexer: longest match, so a [Text] token is a maximal run. *)
Fixpoint lex_aux (run : text) (s : text) : list Token :=
  match s with
  | [] => match run with [] => [] | _ => [Text (rev run)] end
  | c :: r =>
      if is_text_char c then lex_aux (c :: run) r
      else
        (match run with [] => [] | _ => [Text (rev run)] end)
          ++ (if is_whitespace c then Error else Symbol [c]) :: lex_aux [] r
  end.

Definition lexer (content : text) : list Token := lex_aux [] content.

(** [pub fn tokenize]. *)
Definition tokenize (content : text) : list text :=
  flat_map (fun t => match t with Text t | Symbol t => [t] | Error => [] end)
    (lexer content).

End Logos.

(* ------------------------------------------------------------------ *)
(** ** [filter_candidates] ([src/src/lib.rs]) *)

Definition filter_candidates (previous_candidates new_candidates : list string)
  : list string :=
  match previous_candidates with
  | [] => new_candidates
  | _ =>
      match new_candidates with
      | [] => previous_candidates
      | _ =>
          let filtered_candidates :=
            filter (fun l => contains new_candidates l) previous_candidates in
          match filtered_candidates with
          | [] => previous_candidates
          | _ => filtered_candidates
          end
      end
  end.

(* ------------------------------------------------------------------ *)
(** ** External behaviour the crate relies on *)

(** The Unicode classes of [core::char] and of the [regex] crate's [\w] on
    non-ASCII scalar values (on ASCII they are written out below). *)
Record Unicode := {
  u_alphabetic : N -> bool;
  u_numeric : N -> bool;
  u_word : N -> bool
}.

Definition is_alphabetic (u : Unicode) (c : N) : bool :=
  if (c <? 128)%N then is_ascii_alphabetic c else u_alphabetic u c.
Definition is_numeric (u : Unicode) (c : N) : bool :=
  if (c <? 128)%N then is_ascii_digit c else u_numeric u c.
(** [char::is_alphanumeric] is [is_alphabetic || is_numeric]. *)
Definition is_alphanumeric (u : Unicode) (c : N) : bool :=
  is_alphabetic u c || is_numeric u c.
(** The regex class [\w]. *)
Definition is_word (u : Unicode) (c : N) : bool :=
  if (c <? 128)%N then is_ascii_alphanumeric c || (c =? 95)%N else u_word u c.

(** File contents: each element is a decoded scalar value, or [Bad] for a
    byte that is not part of valid UTF-8. *)
Inductive unit_ := Ch (c : N) | Bad.
Definition file := list unit_.

Definition file_of_string (s : string) : file := map Ch (of_string s).

Inductive io_error := NotFound | InvalidData.

(** [Result<A, std::io::Error>]. *)
Inductive result (A : Type) := Ok (a : A) | Err (e : io_error).
Arguments Ok {A} a.
Arguments Err {A} e.

(** UTF-8 validation of a byte sequence ([String::from_utf8]). *)
Fixpoint decode (f : file) : option text :=
  match f with
  | [] => Some []
  | Ch c :: r => option_map (cons c) (decode r)
  | Bad :: _ => None
  end.

(** The bytes up to the first [b'\n'], and the bytes after it if there is one. *)
Fixpoint break_line (f : file) : file * option file :=
  match f with
  | [] => ([], None)
  | Ch 10 :: r => ([], Some r)
  | u :: r => let (l, rest) := break_line r in (u :: l, rest)
  end.

(** One step of [BufRead::lines]: [None] at end of input; the line loses its
    [\n] or [\r\n]; a line that is not UTF-8 is an [InvalidData] error.
    The reader is the file's bytes in memory: read errors of the underlying
    [File] (such as [EIO]) are not modelled. *)
Definition next_line (f : file) : option (result text * file) :=
  match f with
  | [] => None
  | _ =>
      let (l, rest) := break_line f in
      let l := match rest with
               | Some _ => match rev l with Ch 13 :: l' => rev l' | _ => l end
               | None => l
               end in
      let r := match decode l with Some t => Ok t | None => Err InvalidData end in
      Some (r, match rest with Some r' => r' | None => [] end)
  end.

(** [lines.take(n).filter_map(|line| line.ok())]. *)
Fixpoint take_ok_lines (n : nat) (f : file) : list text :=
  match n with
  | 0 => []
  | S n' =>
      match next_line f with
      | None => []
      | Some (Ok l, rest) => l :: take_ok_lines n' rest
      | Some (Err _, rest) => take_ok_lines n' rest
      end
  end.

Fixpoint join_lines (ls : list text) : text :=
  match ls with
  | [] => []
  | [l] => l
  | l :: ls' => l ++ [10%N] ++ join_lines ls'
  end.

(* ------------------------------------------------------------------ *)
(** ** [src/src/detectors/extensions.rs] *)

Module Extensions.

Definition get_languages_from_extension (EXTENSIONS : list (text * list string))
  (extension : text) : list string :=
  match assoc Text.eqb extension EXTENSIONS with
  | Some languages => languages
  | None => []
  end.

(** The loop over [char_indices]: the first ['.'] position whose suffix is a
    key of [EXTENSIONS]. *)
Fixpoint first_dot_key (EXTENSIONS : list (text * list string)) (s : text)
  : option text :=
  match s with
  | [] => None
  | ch :: r =>
      if (ch =? 46)%N then
        match assoc_key Text.eqb s EXTENSIONS with
        | Some extension => Some extension
        | None => first_dot_key EXTENSIONS r
        end
      else first_dot_key EXTENSIONS r
  end.

Definition get_extension (EXTENSIONS : list (text * list string)) (filename : text)
  : option text :=
  let filename := match filename with 46%N :: r => r | _ => filename end in
  let filename := map to_ascii_lowercase filename in
  first_dot_key EXTENSIONS filename.

End Extensions.

(* ------------------------------------------------------------------ *)
(** ** [src/src/detectors/interpreters.rs] *)

Module Interpreters.

(** [RE.split(interpreter).next().unwrap()] for [RE = [0-9]\.[0-9]]: the
    text before the leftmost match, or all of it. *)
Fixpoint strip_minor_version (s : text) : text :=
  match s with
  | a :: s' =>
      match s' with
      | b :: c :: _ =>
          if is_ascii_digit a && (b =? 46)%N && is_ascii_digit c then []
          else a :: strip_minor_version s'
      | _ => s
      end
  | [] => []
  end.

(** [.+] followed by the literal [lit] and then by what [k] accepts; [.] is
    any character but [\n]; [started] records that [.+] has taken one. *)
Fixpoint dots_then (lit : text) (k : text -> bool) (started : bool) (s : text) : bool :=
  (started && starts_with lit s && k (skipn (List.length lit) s))
  || match s with
     | [] => false
     | c :: r => negb (c =? 10)%N && dots_then lit k true r
     end.

(** The part [.+\$0.+\$@] of [SHEBANG_HACK_RE]. *)
Definition hack_tail (s : text) : bool :=
  dots_then (of_string "$0") (dots_then (of_string "$@") (fun _ => true) false) false s.

(** Greedy [(\w+)]: the longest prefix of length at most [k] after which the
    tail matches. *)
Fixpoint try_word (k : nat) (t : text) : option text :=
  match k with
  | 0 => None
  | S k' => if hack_tail (skipn k t) then Some (firstn k t) else try_word k' t
  end.

Fixpoint word_run (u : Unicode) (t : text) : nat :=
  match t with
  | c :: r => if is_word u c then S (word_run u r) else 0
  | [] => 0
  end.

(** [SHEBANG_HACK_RE.captures(..).get(1)] for [exec (\w+).+\$0.+\$@]: the
    leftmost match, group 1 as the greedy engine picks it. *)
Fixpoint hack_capture (u : Unicode) (s : text) : option text :=
  match s with
  | [] => None
  | _ :: r =>
      let here :=
        if starts_with (of_string "exec ") s then
          let t := skipn 5 s in try_word (word_run u t) t
        else None in
      match here with
      | Some w => Some w
      | None => hack_capture u r
      end
  end.

Definition get_languages_from_shebang (u : Unicode)
  (INTERPRETERS : list (text * list string)) (reader : file)
  : result (list string) :=
  match next_line reader with
  | None => Ok []
  | Some (Err e, _) => Err e
  | Some (Ok shebang_line, lines) =>
      if negb (starts_with (of_string "#!") shebang_line) then Ok []
      else
        let interpreter_line := last (split_on 47 shebang_line) [] in
        let interpreter :=
          match split_whitespace interpreter_line with
          | first :: splits =>
              if Text.eqb first (of_string "env") then hd_error splits
              else if Text.eqb first (of_string "sh") then
                let extra_content := join_lines (take_ok_lines 4 lines) in
                match hack_capture u extra_content with
                | Some i => Some i
                | None => Some (of_string "sh")
                end
              else Some first
          | [] => None
          end in
        let languages :=
          match interpreter with
          | Some interpreter =>
              assoc Text.eqb (strip_minor_version interpreter) INTERPRETERS
          | None => None
          end in
        match languages with
        | Some languages => Ok languages
        | None => Ok []
        end
  end.

End Interpreters.

(* ------------------------------------------------------------------ *)
(** ** [src/src/codegen/languages.rs] *)

Section Languages.
Local Open Scope string_scope.

(** [static LANGUAGES]: every known language, in the generated order. *)
Definition LANGUAGES : list string := [
  "Jison Lex"; "Pep8"; "Module Management System"; "Less"; "Roff";
  "Bluespec"; "ShellSession"; "TSX"; "CodeQL"; "MTML"; "Objective-J";
  "Squirrel"; "YASnippet"; "Xtend"; "Graph Modeling Language"; "Dhall";
  "HTML+PHP"; "Lex"; "Diff"; "Slim"; "VHDL"; "ZAP"; "mcfunction"; "Gradle";
  "Pod 6"; "Git Config"; "Hy"; "Logtalk"; "Grace"; "RAML"; "Modelica";
  "Processing"; "Raw token data"; "IRC log"; "Pug"; "PostCSS"; "Factor";
  "Public Key"; "Python"; "SQF"; "Click"; "Java Properties"; "Text";
  "Brightscript"; "JSON5"; "Gnuplot"; "DM"; "Vala"; "FLUX"; "Reason";
  "X Font Directory Index"; "Objective-C++"; "Proguard"; "Literate Agda";
  "Filterscript"; "PowerBuilder"; "M"; "BibTeX"; "Myghty"; "Nu"; "Haxe";
  "Terra"; "Object Data Instance Notation"; "Charity"; "GAMS"; "GN"; "Ioke";
  "MAXScript"; "Makefile"; "PowerShell"; "Cloud Firestore Security Rules";
  "CMake"; "KiCad Legacy Layout"; "LookML"; "P4"; "Windows Registry Entries";
  "API Blueprint"; "RobotFramework"; "X PixMap"; "Groovy Server Pages";
  "NPM Config"; "Nextflow"; "QMake"; "Type Language"; "Modula-2"; "4D";
  "BlitzBasic"; "CSV"; "Racket"; "JavaScript+ERB"; "Batchfile"; "Pony";
  "ColdFusion CFC"; "DirectX 3D File"; "QML"; "TI Program"; "Assembly";
  "Readline Config"; "TLA"; "Omgrofl"; "Max"; "Vim script"; "NASL"; "Wollok";
  "Haml"; "Nim"; "Faust"; "Wavefront Material"; "Crystal"; "EditorConfig";
  "HCL"; "RUNOFF"; "Starlark"; "Pike"; "Fantom"; "Blade"; "TOML";
  "AppleScript"; "Xojo"; "OpenType Feature File"; "Component Pascal"; "Ox";
  "Uno"; "LFE"; "Maven POM"; "Augeas"; "AMPL"; "Ragel"; "WebAssembly";
  "CLIPS"; "PureScript"; "Elm"; "Twig"; "Agda"; "Latte"; "Tea";
  "Altium Designer"; "C2hs Haskell"; "Fortran"; "Grammatical Framework";
  "Literate CoffeeScript"; "NumPy"; "PigLatin"; "Rebol"; "AutoHotkey"; "Zig";
  "Gherkin"; "Turtle"; "Ignore List"; "Inno Setup"; "Metal"; "Go"; "REXX";
  "EmberScript"; "Graphviz (DOT)"; "Java"; "Self"; "RPC"; "Mathematica";
  "Closure Templates"; "Papyrus"; "MoonScript"; "Org"; "Pic"; "desktop";
  "Perl"; "mupad"; "X10"; "Zimpl"; "Open Policy Agent";
  "OpenStep Property List"; "SMT"; "Forth"; "Io"; "Lua"; "Roff Manpage";
  "HTML+EEX"; "EJS"; "Jolie"; "Objective-C"; "Smali"; "SaltStack";
  "Dockerfile"; "Python console"; "wdl"; "Cycript"; "Zeek"; "Unity3D Asset";
  "DTrace"; "Ada"; "CoffeeScript"; "Pan"; "YARA"; "Golo"; "JSONiq";
  "SugarSS"; "Unix Assembly"; "Clean"; "FreeMarker"; "Handlebars"; "Ruby";
  "Markdown"; "Vim Snippet"; "POV-Ray SDL"; "Clarion"; "Emacs Lisp";
  "D-ObjDump"; "Nginx"; "Opal"; "PostScript"; "Puppet"; "WebVTT";
  "reStructuredText"; "Swift"; "Boo"; "SubRip Text"; "M4Sugar";
  "Glyph Bitmap Distribution Format"; "PlantUML"; "STON"; "GAP";
  "Common Lisp"; "Stata"; "NSIS"; "LSL"; "SVG"; "xBase"; "GAML"; "MQL4";
  "Ant Build System"; "Cool"; "SWIG"; "NewLisp"; "OpenQASM"; "Oz";
  "Game Maker Language"; "NCL"; "BlitzMax"; "LiveScript"; "XCompose";
  "Inform 7"; "HTML+ERB"; "OpenSCAD"; "Apex"; "Julia"; "Red"; "q"; "R";
  "Kotlin"; "Linker Script"; "Filebench WML"; "RPM Spec"; "Texinfo";
  "Turing"; "SRecode Template"; "AGS Script"; "Darcs Patch"; "AngelScript";
  "Glyph"; "SQLPL"; "KRL"; "M4"; "wisp"; "Bison"; "Nit"; "CSS"; "Dart"; "XC";
  "HAProxy"; "Mako"; "YAML"; "Csound Document"; "Brainfuck";
  "Motorola 68K Assembly"; "XML"; "C"; "Clojure"; "KiCad Schematic"; "GDB";
  "Moocode"; "HTML"; "Limbo"; "Dogescript"; "Opa"; "LabVIEW";
  "Isabelle ROOT"; "REALbasic"; "Verilog"; "Slice"; "VCL"; "Riot"; "Awk";
  "Cabal Config"; "UnrealScript"; "D"; "G-code"; "WebIDL"; "Sage"; "XQuery";
  "F#"; "Parrot"; "XML Property List"; "FIGlet Font"; "Scheme"; "Smalltalk";
  "Scilab"; "Coq"; "Cap'n Proto"; "CartoCSS"; "Eiffel"; "Monkey"; "HiveQL";
  "SCSS"; "HLSL"; "Pickle"; "PureBasic"; "ObjDump"; "Linux Kernel Module";
  "Literate Haskell"; "Shen"; "Git Attributes"; "LilyPond"; "mIRC Script";
  "Ring"; "Zephir"; "LOLCODE"; "OpenEdge ABL"; "PLSQL"; "JSONLD"; "X BitMap";
  "COBOL"; "Apollo Guidance Computer"; "Gentoo Ebuild"; "RHTML"; "UrWeb";
  "Dylan"; "J"; "SPARQL"; "GraphQL"; "LoomScript"; "Cython"; "ECL"; "ASN.1";
  "ANTLR"; "Raku"; "TypeScript"; "XS"; "Yacc"; "Csound Score"; "Jasmin";
  "Lasso"; "1C Enterprise"; "Hack"; "Quake"; "Rascal"; "SystemVerilog";
  "TXL"; "RDoc"; "VBA"; "Nearley"; "Standard ML"; "C-ObjDump"; "Pure Data";
  "Formatted"; "JSON"; "CSON"; "Ecere Projects"; "Haskell"; "LLVM"; "Frege";
  "Ninja"; "Protocol Buffer"; "SSH Config"; "Unified Parallel C"; "Elixir";
  "ActionScript"; "eC"; "ATS"; "Adobe Font Metrics"; "Ballerina"; "ChucK";
  "OpenCL"; "Harbour"; "MATLAB"; "Parrot Assembly"; "Rust"; "nesC"; "Tcl";
  "HTML+Django"; "Alloy"; "Lean"; "GCC Machine Description"; "ZenScript";
  "Common Workflow Language"; "EML"; "Cuda"; "Jsonnet"; "Svelte"; "EQ";
  "Liquid"; "ABNF"; "Odin"; "LTspice Symbol"; "nanorc"; "ObjectScript";
  "Shell"; "Logos"; "Nix"; "PogoScript"; "Creole"; "Kit"; "NetLinx+ERB";
  "Slash"; "Gerber Image"; "Erlang"; "MQL5"; "Visual Basic .NET"; "C#";
  "edn"; "MediaWiki"; "Microsoft Developer Studio Project"; "Eagle";
  "Ren'Py"; "Sass"; "Pascal"; "Gentoo Eclass"; "VBScript";
  "Wavefront Object"; "XPages"; "ApacheConf"; "Rouge"; "ABAP"; "JavaScript";
  "ZIL"; "V"; "DIGITAL Command Language"; "Arc"; "JFlex"; "BitBake";
  "OpenRC runscript"; "Parrot Internal Representation"; "Stan"; "Vue";
  "XSLT"; "SourcePawn"; "YANG"; "ooc"; "Idris"; "OCaml"; "Asymptote";
  "Textile"; "NL"; "E"; "PicoLisp"; "HTML+Razor"; "sed"; "PLpgSQL"; "Prolog";
  "Volt"; "HTTP"; "Oxygene"; "TeX"; "Wget Config"; "MUF"; "RenderScript";
  "NetLogo"; "AsciiDoc"; "Meson"; "Mercury"; "Python traceback"; "Chapel";
  "Edje Data Collection"; "Befunge"; "Web Ontology Language";
  "JSON with Comments"; "cURL Config"; "ASP"; "C++"; "CoNLL-U";
  "Java Server Pages"; "fish"; "AutoIt"; "Mirah"; "MiniD";
  "Regular Expression"; "ECLiPSe"; "COLLADA"; "F*"; "XProc"; "DNS Zone";
  "Mask"; "Genie"; "Jison"; "Pawn"; "SmPL"; "Nemerle"; "Tcsh";
  "World of Warcraft Addon Data"; "Propeller Spin"; "AspectJ"; "Scaml";
  "ColdFusion"; "ShaderLab"; "SuperCollider"; "HolyC"; "Pod"; "MLIR"; "SQL";
  "Fancy"; "Smarty"; "Cpp-ObjDump"; "INI"; "HXML"; "IGOR Pro"; "Thrift";
  "KiCad Layout"; "Rich Text Format"; "EBNF"; "RMarkdown"; "Modula-3";
  "Genshi"; "HTML+ECR"; "Redcode"; "Ceylon"; "Easybuild"; "Stylus";
  "dircolors"; "Cirru"; "Groovy"; "Gettext Catalog"; "NetLinx"; "Marko";
  "Isabelle"; "DataWeave"; "SAS"; "Alpine Abuild"; "PHP"; "GDScript"; "GLSL";
  "Spline Font Database"; "IDL"; "Solidity"; "APL"; "HyPhy"; "TSQL"; "Muse";
  "Csound"; "Gosu"; "Prisma"; "Scala"; "CWeb"; "JSX"; "Jupyter Notebook"
].

End Languages.

(* ------------------------------------------------------------------ *)
(** ** [src/src/heuristics.rs] *)

Module Heuristics.

(** [enum Pattern]; a regex is kept as its source text. *)
Inductive Pattern :=
| And (patterns : list Pattern)
| Negative (pattern : string)
| Or (patterns : list Pattern)
| Positive (pattern : string).

(** [struct Rule]. *)
Record Rule := {
  languages : list string;
  pattern : option Pattern
}.

Section Matching.

(** [PCRERegex::new().crlf(true).multi_line(true).build(p).unwrap().is_match(..)]
    of the [pcre2] crate: [Some b] for [Ok b], [None] for an error of the
    matcher (such as its match limit). *)
Variable is_match : string -> text -> option bool.

Fixpoint matches (p : Pattern) (content : text) : bool :=
  match p with
  | Positive pattern =>
      match is_match pattern content with Some b => b | None => false end
  | Negative pattern =>
      negb (match is_match pattern content with Some b => b | None => true end)
  | Or patterns =>
      (fix any (ps : list Pattern) : bool :=
         match ps with [] => false | p :: ps' => matches p content || any ps' end)
        patterns
  | And patterns =>
      (fix all (ps : list Pattern) : bool :=
         match ps with [] => true | p :: ps' => matches p content && all ps' end)
        patterns
  end.

(** The [for rule in rules] loop with its early returns. *)
Fixpoint walk_rules (rules : list Rule) (content : text) : list string :=
  match rules with
  | [] => []
  | rule :: rules' =>
      match pattern rule with
      | Some p => if matches p content then languages rule else walk_rules rules' content
      | None => languages rule
      end
  end.

Definition get_languages (DISAMBIGUATIONS : list (text * list Rule))
  (extension : text) (candidates : list string) (content : text) : list string :=
  match assoc Text.eqb extension DISAMBIGUATIONS with
  | Some rules =>
      let rules :=
        filter (fun rule => forallb (contains candidates) (languages rule)) rules in
      walk_rules rules content
  | None => []
  end.

End Matching.

End Heuristics.

(* ------------------------------------------------------------------ *)
(** ** The generated tables *)

(** The [phf] maps generated at build time, and the [pcre2] matcher used on
    the regexes of [DISAMBIGUATIONS]. *)
Record KnowledgeBase := {
  FILENAMES : list (text * string);
  EXTENSIONS : list (text * list string);
  INTERPRETERS : list (text * list string);
  DISAMBIGUATIONS : list (text * list Heuristics.Rule);
  TOKEN_LOG_PROBABILITIES : list (string * list (text * float));
  pcre_is_match : string -> text -> option bool
}.

(* ------------------------------------------------------------------ *)
(** ** [src/src/detectors/classifier.rs] *)

Module Classifier.

Definition MAX_TOKEN_BYTES : nat := 32.
Definition DEFAULT_LOG_PROB : float := (-19)%float.

Record LanguageScore := {
  language : string;
  score : float
}.

(** [b.score.partial_cmp(&a.score).unwrap_or(Ordering::Equal)]. *)
Definition by_score_desc (a b : LanguageScore) : comparison :=
  match PrimFloat.compare (score b) (score a) with
  | FEq => Eq
  | FLt => Lt
  | FGt => Gt
  | FNotComparable => Eq
  end.

(** [slice::sort_by], a stable sort: insertion keeping equal elements in
    their original order. *)
Fixpoint insert_by {A : Type} (cmp : A -> A -> comparison) (x : A) (l : list A)
  : list A :=
  match l with
  | [] => [x]
  | y :: l' => match cmp x y with Gt => y :: insert_by cmp x l' | _ => x :: y :: l' end
  end.

Fixpoint sort_by {A : Type} (cmp : A -> A -> comparison) (l : list A) : list A :=
  match l with
  | [] => []
  | x :: l' => insert_by cmp x (sort_by cmp l')
  end.

(** The tokens scored: [tokenize(content).filter(|t| t.len() <= MAX_TOKEN_BYTES)]. *)
Definition scored_tokens (content : text) : list text :=
  filter (fun token => byte_len token <=? MAX_TOKEN_BYTES) (Logos.tokenize content).

Definition language_score (TLP : list (string * list (text * float)))
  (content : text) (language : string) : float :=
  match assoc String.eqb language TLP with
  | Some token_map =>
      fold_left
        (fun sum token =>
           let token_log_prob :=
             match assoc Text.eqb token token_map with
             | Some p => p
             | None => DEFAULT_LOG_PROB
             end in
           (sum + token_log_prob)%float)
        (scored_tokens content) 0%float
  | None => neg_infinity
  end.

(** [pub fn classify]; [None] stands for the panic of [scored_candidates[0]]
    on an empty vector ([classify] itself never returns [Err]). *)
Definition classify (TLP : list (string * list (text * float)))
  (content : text) (candidates : list string) : option string :=
  let candidates := match candidates with [] => LANGUAGES | _ => candidates end in
  let scored_candidates :=
    map (fun language =>
           {| language := language; score := language_score TLP content language |})
      candidates in
  let scored_candidates := sort_by by_score_desc scored_candidates in
  option_map language (nth_error scored_candidates 0).

End Classifier.

(* ------------------------------------------------------------------ *)
(** ** [src/src/lib.rs]: the detection pipeline *)

Module Pipeline.

Import Heuristics Classifier.

(** [pub enum Detection]. *)
Inductive Detection :=
| Filename (language : string)
| Extension (language : string)
| Shebang (language : string)
| Heuristics (language : string)
| Classifier (language : string).

Definition MAX_CONTENT_SIZE_BYTES : nat := 51200.

(** A path is the byte string of a Unix [OsStr]. *)
Definition path := list unit_.

Definition is_slash (u : unit_) : bool :=
  match u with Ch 47 => true | _ => false end.

Fixpoint split_path_aux (cur : list unit_) (p : path) : list (list unit_) :=
  match p with
  | [] => [rev cur]
  | u :: r => if is_slash u then rev cur :: split_path_aux [] r
              else split_path_aux (u :: cur) r
  end.

Definition dot : list unit_ := [Ch 46].
Definition dotdot : list unit_ := [Ch 46; Ch 46].

Definition unit_eqb (a b : unit_) : bool :=
  match a, b with Ch x, Ch y => (x =? y)%N | Bad, Bad => true | _, _ => false end.

Definition units_eqb (a b : list unit_) : bool :=
  (List.length a =? List.length b) && forallb (fun '(x, y) => unit_eqb x y) (combine a b).

(** [Path::file_name]: the last component of [components()] (which drops
    empty and [.] components) if it is a normal one; [None] for [..] or when
    there is no component. *)
Definition file_name (p : path) : option (list unit_) :=
  let comps := filter (fun c => negb (units_eqb c [] || units_eqb c dot))
                 (split_path_aux [] p) in
  match rev comps with
  | [] => None
  | c :: _ => if units_eqb c dotdot then None else Some c
  end.

(** [str::is_char_boundary]: [index] is [0], [s.len()], or the offset of
    the first byte of a character; an index past the end is not one. *)
Fixpoint is_char_boundary (s : text) (index : nat) : bool :=
  match index with
  | 0 => true
  | S _ =>
      match s with
      | [] => false
      | c :: r => if index <? utf8_len c then false else is_char_boundary r (index - utf8_len c)
      end
  end.

(** [while !s.is_char_boundary(max) { max -= 1; }] (it stops at [0], which
    is a boundary). *)
Fixpoint walk_back (s : text) (max : nat) : nat :=
  if is_char_boundary s max then max
  else match max with 0 => 0 | S m => walk_back s m end.

(** [&s[..index]] for a character boundary [index]: the characters that end
    at or before byte [index]. *)
Fixpoint slice_to (s : text) (index : nat) : text :=
  match s with
  | [] => []
  | c :: r => if utf8_len c <=? index then c :: slice_to r (index - utf8_len c) else []
  end.

(** [fn truncate_to_char_boundary]. *)
Definition truncate_to_char_boundary (s : text) (max : nat) : text :=
  if byte_len s <=? max then s else slice_to s (walk_back s max).

(** The file system: the bytes of the file at a path, [None] when
    [File::open] fails. *)
Definition fs_t := path -> option file.

(** [pub fn detect].  [detectors::get_languages_from_heuristics] is
    [heuristics::get_languages] and [detectors::classify] is used for its
    language; [classify] has a first element for the non-empty candidate
    list it gets here (lemma [classify_some]), so the [None] branch below is
    never taken. *)
Definition detect (kb : KnowledgeBase) (u : Unicode) (fs : fs_t) (p : path)
  : result (option Detection) :=
  match file_name p with
  | None => Ok None
  | Some os_filename =>
  let filename := decode os_filename in
  let candidate :=
    match filename with
    | Some filename => assoc Text.eqb filename (FILENAMES kb)
    | None => None
    end in
  match candidate with
  | Some candidate => Ok (Some (Filename candidate))
  | None =>
  let extension :=
    match filename with
    | Some filename => Extensions.get_extension (EXTENSIONS kb) filename
    | None => None
    end in
  let candidates :=
    match extension with
    | Some ext => Extensions.get_languages_from_extension (EXTENSIONS kb) ext
    | None => []
    end in
  match candidates with
  | [c] => Ok (Some (Extension c))
  | _ =>
  match fs p with
  | None => Err NotFound
  | Some bytes =>
  match Interpreters.get_languages_from_shebang u (INTERPRETERS kb) bytes with
  | Err e => Err e
  | Ok shebang_languages =>
  let candidates := filter_candidates candidates shebang_languages in
  match candidates with
  | [c] => Ok (Some (Shebang c))
  | _ =>
  match decode bytes with
  | None => Err InvalidData
  | Some content =>
  let content := truncate_to_char_boundary content MAX_CONTENT_SIZE_BYTES in
  let candidates :=
    if 1 <? List.length candidates then
      match extension with
      | Some extension =>
          let languages :=
            get_languages (pcre_is_match kb) (DISAMBIGUATIONS kb) extension
              candidates content in
          filter_candidates candidates languages
      | None => candidates
      end
    else candidates in
  match candidates with
  | [] => Ok None
  | [c] => Ok (Some (Heuristics c))
  | _ =>
      match classify (TOKEN_LOG_PROBABILITIES kb) content candidates with
      | Some l => Ok (Some (Classifier l))
      | None => Ok None
      end
  end
  end
  end
  end
  end
  end
  end
  end.

End Pipeline.

(* ------------------------------------------------------------------ *)
(** ** [crates/polyglot_tokenizer/src/tokenizer.rs] *)

Module Polyglot.

(** A [&'a str] field of a token: the byte range [start..stop] of the
    content, or the literal [""] of the empty-string case. *)
Inductive str := Sl (start stop : nat) | Lit_empty.

Inductive Token :=
| BlockComment (opener body closer : str)
| Ident (s : str)
| LineComment (opener body : str)
| Number (s : str)
| String (opener body closer : str)
| Symbol (s : str).

(** [str::char_indices]. *)
Fixpoint char_indices_from (i : nat) (s : text) : list (nat * N) :=
  match s with
  | [] => []
  | c :: r => (i, c) :: char_indices_from (i + utf8_len c) r
  end.

(** [struct Tokens]; [chars] is what remains of [content.char_indices()]. *)
Record Tokens := mkTokens {
  backlog : list (nat * N);
  chars : list (nat * N);
  content : text;
  current_token_idx : nat
}.

Definition set_backlog (t : Tokens) b :=
  mkTokens b (chars t) (content t) (current_token_idx t).
Definition set_chars (t : Tokens) c :=
  mkTokens (backlog t) c (content t) (current_token_idx t).
Definition set_current (t : Tokens) i :=
  mkTokens (backlog t) (chars t) (content t) i.

(** [Tokenizer::new(content).tokens()]. *)
Definition tokens (content : text) : Tokens :=
  mkTokens [] (char_indices_from 0 content) content 0.

Definition content_len (t : Tokens) : nat := byte_len (content t).

Definition advance (t : Tokens) : option (nat * N) * Tokens :=
  match backlog t with
  | x :: r => (Some x, set_backlog t r)
  | [] =>
      match chars t with
      | x :: r => (Some x, set_chars t r)
      | [] => (None, t)
      end
  end.

Definition peek (t : Tokens) : option (nat * N) :=
  match backlog t with
  | x :: _ => Some x
  | [] => hd_error (chars t)
  end.

(** [push_backlog]: the pushed characters go in front, in their order. *)
Definition push_backlog (t : Tokens) (new_chars : list (nat * N)) : Tokens :=
  set_backlog t (new_chars ++ backlog t).

(** [self.slice(start, end).char_indices()] shifted by [start]. *)
Definition slice_chars (t : Tokens) (start stop : nat) : list (nat * N) :=
  filter (fun '(i, _) => (start <=? i) && (i <? stop)) (char_indices_from 0 (content t)).

(** [take_if] with a closure of state [S]: the loop
    [peek; if cond(ch) advance else break idx], [content.len()] at the end. *)
Section TakeIf.
Context {S : Type} (cond : S -> N -> bool * S).

Fixpoint take_if_chars (s : S) (len : nat) (cs : list (nat * N))
  : nat * S * list (nat * N) :=
  match cs with
  | [] => (len, s, [])
  | (i, c) :: r =>
      let (b, s') := cond s c in
      if b then take_if_chars s' len r else (i, s', cs)
  end.

Fixpoint take_if_backlog (s : S) (len : nat) (bl cs : list (nat * N))
  : nat * S * list (nat * N) * list (nat * N) :=
  match bl with
  | [] => let '(e, s', cs') := take_if_chars s len cs in (e, s', [], cs')
  | (i, c) :: r =>
      let (b, s') := cond s c in
      if b then take_if_backlog s' len r cs else (i, s', bl, cs)
  end.

Definition take_if (s : S) (t : Tokens) : nat * S * Tokens :=
  let '(e, s', bl, cs) := take_if_backlog s (content_len t) (backlog t) (chars t) in
  (e, s', set_chars (set_backlog t bl) cs).

End TakeIf.

(** A closure without state. *)
Definition pure_cond (f : N -> bool) : unit -> N -> bool * unit := fun _ c => (f c, tt).

Definition take_if_pure (f : N -> bool) (t : Tokens) : nat * Tokens :=
  let '(e, _, t') := take_if (pure_cond f) tt t in (e, t').

Definition is_nl_or_cr (c : N) : bool := (c =? 10)%N || (c =? 13)%N.

Definition eat_whitespace (t : Tokens) : nat * Tokens := take_if_pure is_whitespace t.

Definition eat_non_newline_whitespace (t : Tokens) : nat * Tokens :=
  take_if_pure (fun c => negb (is_nl_or_cr c) && is_whitespace c) t.

(** [numeric_closure]: state [seen_decimal]. *)
Definition numeric_closure (u : Unicode) : bool -> N -> bool * bool :=
  fun seen_decimal ch =>
    if is_numeric u ch || (ch =? 95)%N then (true, seen_decimal)
    else if (ch =? 46)%N then (if seen_decimal then (false, true) else (true, true))
    else (false, seen_decimal).

(** The line-comment arms: opener run of [marker], then the body to the end
    of the line with leading non-newline whitespace skipped. *)
Definition line_comment (marker : N) (t : Tokens) : Token * Tokens :=
  let ts := current_token_idx t in
  let '(sym_end, t) := take_if_pure (fun c => (c =? marker)%N) t in
  let '(comment_start, t) := eat_non_newline_whitespace t in
  let '(comment_end, t) := take_if_pure (fun c => negb (is_nl_or_cr c)) t in
  (LineComment (Sl ts sym_end) (Sl comment_start comment_end), t).

(** [take_block]: the closure state is the [CircularQueue] of capacity
    [end_sequence.len()], newest first as [iter()] yields it. *)
Definition take_block (t : Tokens) (content_idx : nat) (end_sequence : list N)
  : (str * str + Token) * Tokens :=
  let n := List.length end_sequence in
  let cond := fun (prev_chars : list N) (ch : N) =>
    let should_take := Text.eqb prev_chars end_sequence in
    (should_take, if should_take then firstn n (ch :: prev_chars) else prev_chars) in
  let '(e, prev_chars, t) := take_if cond [] t in
  if Text.eqb prev_chars end_sequence then
    let end_sequence_start := e - n in
    (inl (Sl content_idx end_sequence_start, Sl end_sequence_start e), t)
  else
    let backlog_start := current_token_idx t + 1 in
    let t := push_backlog t (slice_chars t backlog_start e) in
    (inr (Symbol (Sl (current_token_idx t) backlog_start)), t).

(** The [for expected_symbol in start_sequence[1..]] loop of
    [block_comment]: [inl symbol] when all matched, [inr symbol] with the
    characters matched so far otherwise. *)
Fixpoint match_start (t : Tokens) (symbol rest : list N)
  : (list N + list N) * Tokens :=
  match rest with
  | [] => (inl symbol, t)
  | expected :: rest' =>
      match peek t with
      | Some (_, ch) =>
          if (ch =? expected)%N then
            let '(_, t) := advance t in match_start t (symbol ++ [ch]) rest'
          else (inr symbol, t)
      | None => (inr symbol, t)
      end
  end.

Fixpoint enumerate_from (i : nat) (l : list N) : list (nat * N) :=
  match l with
  | [] => []
  | c :: r => (i, c) :: enumerate_from (S i) r
  end.

(** [block_comment]: on a mismatch in the opener the characters of
    [symbol[1..]] are pushed back with the indices
    [idx + token_start] given by [enumerate()], and the first character is
    returned as a [Symbol]. *)
Definition block_comment (t : Tokens) (start_sequence end_sequence : list N)
  : Token * Tokens :=
  let ts := current_token_idx t in
  let first := hd 0%N start_sequence in
  match match_start t [first] (tl start_sequence) with
  | (inr symbol, t) =>
      let t := push_backlog t (enumerate_from ts (tl symbol)) in
      (Symbol (Sl ts (ts + 1)), t)
  | (inl symbol, t) =>
      let n := List.length symbol in
      match take_block t (ts + n) end_sequence with
      | (inl (body, closer), t) => (BlockComment (Sl ts (ts + n)) body closer, t)
      | (inr tok, t) => (tok, t)
      end
  end.

(** The arm of the three quote characters. *)
Definition string_token (t : Tokens) (quote_char : N) : Token * Tokens :=
  let ts := current_token_idx t in
  let '(sym_end, t) := take_if_pure (fun c => (c =? quote_char)%N) t in
  match sym_end - ts with
  | 1 =>
      let string_closure := fun (is_escaped : bool) (ch : N) =>
        (negb (((ch =? quote_char)%N && negb is_escaped) || (ch =? 10)%N),
         (ch =? 92)%N && negb is_escaped) in
      let '(string_end, _, t) := take_if string_closure false t in
      let string_content := Sl (ts + 1) string_end in
      let unterminated :=
        let t := push_backlog t (slice_chars t (ts + 1) string_end) in
        (Symbol (Sl ts (ts + 1)), t) in
      match peek t with
      | Some (_, ch) =>
          if (ch =? quote_char)%N then
            let '(_, t) := advance t in
            (String (Sl ts (ts + 1)) string_content (Sl string_end (string_end + 1)), t)
          else unterminated
      | None => unterminated
      end
  | 2 => (String (Sl ts (ts + 1)) Lit_empty (Sl (ts + 1) (ts + 2)), t)
  | n =>
      match take_block t (ts + n) (repeat quote_char n) with
      | (inl (body, closer), t) => (String (Sl ts (ts + n)) body closer, t)
      | (inr tok, t) => (tok, t)
      end
  end.

Definition take_number (u : Unicode) (t : Tokens) : option Token * Tokens :=
  let '(e, _, t) := take_if (numeric_closure u) false t in
  (Some (Number (Sl (current_token_idx t) e)), t).

Definition take_digits (f : N -> bool) (t : Tokens) : option Token * Tokens :=
  let '(_, t) := advance t in
  let '(e, t) := take_if_pure f t in
  (Some (Number (Sl (current_token_idx t) e)), t).

Definition some_token (r : Token * Tokens) : option Token * Tokens :=
  let (tok, t) := r in (Some tok, t).

(** [impl Iterator for Tokens]: [fn next]. *)
Definition next (u : Unicode) (t : Tokens) : option Token * Tokens :=
  let '(_, t) := eat_whitespace t in
  match advance t with
  | (None, t) => (None, t)
  | (Some (idx, ch), t) =>
      let t := set_current t idx in
      let ts := idx in
      let symbol1 := (Some (Symbol (Sl ts (ts + 1))), t) in
      if is_alphabetic u ch || (ch =? 95)%N then
        let '(e, t) := take_if_pure (fun c => is_alphanumeric u c || (c =? 95)%N) t in
        (Some (Ident (Sl ts e)), t)
      else if (ch =? 48)%N then
        match peek t with
        | Some (_, 98%N) => take_digits (fun c => (c =? 49)%N || (c =? 48)%N || (c =? 95)%N) t
        | Some (_, 111%N) => take_digits (fun c => in_range 48 55 c || (c =? 95)%N) t
        | Some (_, 120%N) => take_digits (fun c => is_ascii_hexdigit c || (c =? 95)%N) t
        | _ => take_number u t
        end
      else if (ch =? 45)%N || (ch =? 43)%N then
        match peek t with
        | Some (_, c) =>
            if is_numeric u c then take_number u t
            else if (c =? 45)%N && (ch =? 45)%N then some_token (line_comment 45 t)
            else symbol1
        | None => symbol1
        end
      else if is_numeric u ch then take_number u t
      else if (ch =? 47)%N then
        match peek t with
        | Some (_, 47%N) => some_token (line_comment 47 t)
        | Some (_, 42%N) => some_token (block_comment t [47; 42]%N [42; 47]%N)
        | _ => symbol1
        end
      else if (ch =? 123)%N then
        match peek t with
        | Some (_, 45%N) => some_token (block_comment t [123; 45]%N [45; 125]%N)
        | _ => symbol1
        end
      else if (ch =? 40)%N then
        match peek t with
        | Some (_, 42%N) => some_token (block_comment t [40; 42]%N [42; 41]%N)
        | _ => symbol1
        end
      else if (ch =? 60)%N then some_token (block_comment t [60; 33; 45; 45]%N [45; 45; 62]%N)
      else if (ch =? 35)%N then some_token (line_comment 35 t)
      else if (ch =? 37)%N then some_token (line_comment 37 t)
      else if (ch =? 34)%N || (ch =? 39)%N || (ch =? 96)%N then some_token (string_token t ch)
      else if is_ascii_punctuation ch then symbol1
      else (Some (Symbol (Sl ts (ts + utf8_len ch))), t)
  end.

(** Iterating [next] at most [fuel] times: [Some] of the tokens when the
    stream ended, [None] when the fuel ran out first. *)
Fixpoint collect (u : Unicode) (fuel : nat) (t : Tokens) : option (list Token) :=
  match fuel with
  | 0 => None
  | S fuel' =>
      match next u t with
      | (None, _) => Some []
      | (Some tok, t') => option_map (cons tok) (collect u fuel' t')
      end
  end.

(** The byte span covered by a token: from its first slice to its last. *)
Definition str_start (s : str) : option nat := match s with Sl a _ => Some a | Lit_empty => None end.
Definition str_stop (s : str) : option nat := match s with Sl _ b => Some b | Lit_empty => None end.

Definition span (tok : Token) : option (nat * nat) :=
  let (first, last) :=
    match tok with
    | BlockComment o _ c | String o _ c => (o, c)
    | LineComment o b => (o, b)
    | Ident s | Number s | Symbol s => (s, s)
    end in
  match str_start first, str_stop last with
  | Some a, Some b => Some (a, b)
  | _, _ => None
  end.

End Polyglot.

(* ================================================================== *)
(** * Properties *)

(** ** Lookups *)

Lemma contains_In (l : list string) (x : string) : contains l x = true <-> In x l.
Proof.
  unfold contains. rewrite existsb_exists. split.
  - intros (y & Hy & Heq). apply String.eqb_eq in Heq. subst. exact Hy.
  - intros H. exists x. split; [exact H | apply String.eqb_refl].
Qed.

Lemma assoc_key_eq {V} (k k' : text) (m : list (text * V)) :
  assoc_key Text.eqb k m = Some k' -> k' = k.
Proof.
  induction m as [|[k0 v] m IH]; simpl; [discriminate|].
  destruct (Text.eqb k k0) eqn:E.
  - intros H. injection H as <-. apply Text.eqb_eq in E. congruence.
  - exact IH.
Qed.

Lemma assoc_key_In {V} (k k' : text) (m : list (text * V)) :
  assoc_key Text.eqb k m = Some k' -> In k' (map fst m).
Proof.
  induction m as [|[k0 v] m IH]; simpl; [discriminate|].
  destruct (Text.eqb k k0) eqn:E.
  - intros H. injection H as <-. left. reflexivity.
  - intros H. right. apply IH, H.
Qed.

Lemma assoc_key_complete {V} (k : text) (m : list (text * V)) :
  In k (map fst m) -> assoc_key Text.eqb k m <> None.
Proof.
  induction m as [|[k0 v] m IH]; simpl; [tauto|].
  intros [H|H]; destruct (Text.eqb k k0) eqn:E; try discriminate.
  - simpl in H. subst. rewrite (proj2 (Text.eqb_eq k k) eq_refl) in E. discriminate.
  - apply IH, H.
Qed.

(** ** Extension lookup *)

(** [e] is a suffix of [s] that starts at a ['.']. *)
Definition dotted_suffix (e s : text) : Prop :=
  (exists pre, s = pre ++ e) /\ hd_error e = Some 46%N.

Definition registered (EXT : list (text * list string)) (e : text) : Prop :=
  In e (map fst EXT).

(** The filename as the extension lookup sees it: one leading ['.']
    removed, then ASCII-lowercased. *)
Definition normalized_filename (filename : text) : text :=
  map to_ascii_lowercase
    (if starts_with [46%N] filename then tl filename else filename).

Lemma suffix_cons (c : N) (r e : text) :
  (exists pre, c :: r = pre ++ e) -> e = c :: r \/ exists pre, r = pre ++ e.
Proof.
  intros ([|x pre] & H); simpl in H.
  - left. symmetry. exact H.
  - right. injection H as _ H. exists pre. exact H.
Qed.

Lemma first_dot_key_longest (EXT : list (text * list string)) (s : text) :
  match Extensions.first_dot_key EXT s with
  | Some e =>
      dotted_suffix e s /\ registered EXT e /\
      forall e', dotted_suffix e' s -> registered EXT e' -> List.length e' <= List.length e
  | None => forall e', dotted_suffix e' s -> ~ registered EXT e'
  end.
Proof.
  induction s as [|c r IH]; simpl.
  - intros e' [[pre Hpre] Hhd] _.
    destruct pre, e'; simpl in *; discriminate.
  - assert (Hstep : forall e', dotted_suffix e' (c :: r) ->
              e' = c :: r \/ dotted_suffix e' r).
    { intros e' [Hs Hhd]. destruct (suffix_cons c r e' Hs) as [->|Hr].
      - left. reflexivity.
      - right. split; assumption. }
    assert (Hlift : forall e', dotted_suffix e' r -> dotted_suffix e' (c :: r)).
    { intros e' [[pre Hpre] Hhd]. split; [|exact Hhd].
      exists (c :: pre). simpl. rewrite Hpre. reflexivity. }
    destruct (c =? 46)%N eqn:Hc.
    + destruct (assoc_key Text.eqb (c :: r) EXT) as [k|] eqn:Hk.
      * pose proof (assoc_key_eq _ _ _ Hk) as ->.
        split; [|split].
        -- split; [exists []; reflexivity|]. simpl. apply N.eqb_eq in Hc. congruence.
        -- exact (assoc_key_In _ _ _ Hk).
        -- intros e' [[pre Hpre] _] _. rewrite Hpre, length_app. lia.
      * assert (Hnot : ~ registered EXT (c :: r)).
        { intros Hreg. exact (assoc_key_complete _ _ Hreg Hk). }
        destruct (Extensions.first_dot_key EXT r) as [e|].
        -- destruct IH as (Hs & Hreg & Hmax). split; [|split].
           ++ apply Hlift, Hs.
           ++ exact Hreg.
           ++ intros e' He' Hreg'. destruct (Hstep e' He') as [->|Hr].
              ** contradiction.
              ** apply Hmax; assumption.
        -- intros e' He' Hreg'. destruct (Hstep e' He') as [->|Hr].
           ++ contradiction.
           ++ exact (IH e' Hr Hreg').
    + assert (Hnot : forall e', dotted_suffix e' (c :: r) -> dotted_suffix e' r).
      { intros e' He'. destruct (Hstep e' He') as [->|Hr]; [|exact Hr].
        destruct He' as [_ Hhd]. simpl in Hhd. injection Hhd as ->. discriminate. }
      destruct (Extensions.first_dot_key EXT r) as [e|].
      * destruct IH as (Hs & Hreg & Hmax). split; [|split].
        -- apply Hlift, Hs.
        -- exact Hreg.
        -- intros e' He' Hreg'. apply Hmax; [apply Hnot|]; assumption.
      * intros e' He'. apply IH, Hnot, He'.
Qed.

(** C5: the extension of a filename is, after removing one leading ['.'] and
    lowercasing, its longest registered suffix starting at a ['.']; when no
    such suffix is registered there is none. *)
Theorem get_extension_longest_registered (EXT : list (text * list string))
  (filename : text) :
  match Extensions.get_extension EXT filename with
  | Some e =>
      dotted_suffix e (normalized_filename filename) /\ registered EXT e /\
      forall e', dotted_suffix e' (normalized_filename filename) ->
        registered EXT e' -> List.length e' <= List.length e
  | None =>
      forall e', dotted_suffix e' (normalized_filename filename) -> ~ registered EXT e'
  end.
Proof.
  assert (Hn : normalized_filename filename =
               map to_ascii_lowercase
                 (match filename with 46%N :: r => r | _ => filename end)).
  { unfold normalized_filename. destruct filename as [|c r]; [reflexivity|].
    destruct (N.eq_dec c 46) as [->|Hc]; [reflexivity|].
    assert (Hs : starts_with [46%N] (c :: r) = false).
    { unfold starts_with. cbn [firstn List.length Text.eqb].
      rewrite (proj2 (N.eqb_neq 46 c)) by congruence. reflexivity. }
    rewrite Hs. f_equal.
    destruct c as [|q]; [reflexivity|].
    repeat (destruct q as [q|q|]; try reflexivity).
    exfalso. apply Hc. reflexivity. }
  unfold Extensions.get_extension. rewrite Hn.
  apply first_dot_key_longest.
Qed.

(** ** [filter_candidates] *)

(** The elements of [prev] that are in [new], in the order of [prev]. *)
Definition intersection (prev new : list string) : list string :=
  filter (fun l => if in_dec string_dec l new then true else false) prev.

Lemma contains_in_dec (l : list string) (x : string) :
  contains l x = if in_dec string_dec x l then true else false.
Proof.
  destruct (in_dec string_dec x l) as [H|H].
  - apply contains_In, H.
  - destruct (contains l x) eqn:E; [|reflexivity].
    apply contains_In in E. contradiction.
Qed.

Lemma filter_contains_intersection (prev new : list string) :
  filter (fun l => contains new l) prev = intersection prev new.
Proof.
  unfold intersection. apply filter_ext. intros l. apply contains_in_dec.
Qed.

(** C6: [filter_candidates prev new] is [new] when [prev] is empty, [prev]
    when [new] is empty, and otherwise the intersection, or [prev] when the
    intersection is empty; so its elements come from [prev] or [new], and it
    is [prev] when both are non-empty and disjoint. *)
Theorem filter_candidates_spec (prev new : list string) :
  (prev = [] -> filter_candidates prev new = new) /\
  (prev <> [] -> new = [] -> filter_candidates prev new = prev) /\
  (prev <> [] -> new <> [] ->
     filter_candidates prev new =
       match intersection prev new with [] => prev | inter => inter end) /\
  (forall x, In x (filter_candidates prev new) -> In x prev \/ In x new) /\
  (prev <> [] -> new <> [] -> (forall x, In x prev -> ~ In x new) ->
     filter_candidates prev new = prev).
Proof.
  assert (Hne : prev <> [] -> new <> [] ->
            filter_candidates prev new =
              match intersection prev new with [] => prev | inter => inter end).
  { intros Hp Hn. unfold filter_candidates.
    destruct prev as [|p prev']; [congruence|].
    destruct new as [|n new']; [congruence|].
    rewrite filter_contains_intersection.
    destruct (intersection (p :: prev') (n :: new')); reflexivity. }
  split; [|split; [|split; [exact Hne|split]]].
  - intros ->. reflexivity.
  - intros Hp ->. destruct prev; [congruence|reflexivity].
  - intros x Hx. destruct prev as [|p prev'] eqn:Ep.
    + right. exact Hx.
    + destruct new as [|n new'] eqn:En.
      * left. exact Hx.
      * rewrite Hne in Hx by discriminate.
        destruct (intersection (p :: prev') (n :: new')) as [|i is] eqn:Ei.
        -- left. exact Hx.
        -- left. rewrite <- Ei in Hx. unfold intersection in Hx.
           apply filter_In in Hx as [Hx _]. exact Hx.
  - intros Hp Hn Hdis. rewrite (Hne Hp Hn).
    assert (Hi : intersection prev new = []).
    { clear Hne Hp Hn. unfold intersection.
      induction prev as [|p prev' IH]; [reflexivity|].
      simpl. destruct (in_dec string_dec p new) as [Hin|Hin].
      - exfalso. exact (Hdis p (or_introl eq_refl) Hin).
      - apply IH. intros x Hx. apply Hdis. right. exact Hx. }
    rewrite Hi. reflexivity.
Qed.

(** ** Heuristics *)

(** A rule is kept when every one of its languages is a candidate. *)
Definition rule_retained (candidates : list string) (rule : Heuristics.Rule) : bool :=
  forallb (fun l => if in_dec string_dec l candidates then true else false)
    (Heuristics.languages rule).

(** A rule without pattern matches unconditionally. *)
Definition rule_matches (is_match : string -> text -> option bool) (content : text)
  (rule : Heuristics.Rule) : bool :=
  match Heuristics.pattern rule with
  | None => true
  | Some p => Heuristics.matches is_match p content
  end.

Lemma walk_rules_find is_match (rules : list Heuristics.Rule) (content : text) :
  Heuristics.walk_rules is_match rules content =
  match find (rule_matches is_match content) rules with
  | Some r => Heuristics.languages r
  | None => []
  end.
Proof.
  induction rules as [|r rules IH]; [reflexivity|].
  simpl. unfold rule_matches at 1.
  destruct (Heuristics.pattern r) as [p|]; [|reflexivity].
  destruct (Heuristics.matches is_match p content); [reflexivity|exact IH].
Qed.

Lemma find_filter {A} (f g : A -> bool) (l : list A) :
  find g (filter f l) = find (fun x => f x && g x) l.
Proof.
  induction l as [|x l IH]; [reflexivity|]. simpl.
  destruct (f x); simpl; [destruct (g x)|]; auto.
Qed.

(** C7: the heuristic resolver returns the languages of the first rule of
    the extension, among those whose languages are all candidates, whose
    pattern matches the content (a rule without pattern always matches), and
    the empty list when the extension has no rules or no such rule matches. *)
Theorem get_languages_first_retained_match (is_match : string -> text -> option bool)
  (DIS : list (text * list Heuristics.Rule)) (extension : text)
  (candidates : list string) (content : text) :
  Heuristics.get_languages is_match DIS extension candidates content =
  match assoc Text.eqb extension DIS with
  | None => []
  | Some rules =>
      match find (fun r => rule_retained candidates r && rule_matches is_match content r)
              rules with
      | Some r => Heuristics.languages r
      | None => []
      end
  end.
Proof.
  unfold Heuristics.get_languages.
  destruct (assoc Text.eqb extension DIS) as [rules|]; [|reflexivity].
  rewrite walk_rules_find, find_filter.
  induction rules as [|r rules IH]; [reflexivity|]. simpl.
  assert (Hr : forallb (contains candidates) (Heuristics.languages r)
               = rule_retained candidates r).
  { unfold rule_retained. induction (Heuristics.languages r) as [|l ls IHl];
      [reflexivity|]. simpl. rewrite IHl, contains_in_dec. reflexivity. }
  rewrite Hr. destruct (rule_retained candidates r && rule_matches is_match content r);
    [reflexivity|exact IH].
Qed.

(** ** Interpreter minor versions *)

(** C3: the regex [[0-9]\.[0-9]] consumes the digit before the dot, so the
    first part of the split drops the major version too: [python2.7] and
    [python2.7.3] both become [python] (not [python2]), and a shebang
    [#!/usr/bin/python2.7] is looked up under [python]. *)
Theorem strip_minor_version_drops_major (u : Unicode)
  (INTERPRETERS : list (text * list string)) :
  Interpreters.strip_minor_version (of_string "python2.7") = of_string "python" /\
  Interpreters.strip_minor_version (of_string "python2.7.3") = of_string "python" /\
  Interpreters.strip_minor_version (of_string "python2.7") <> of_string "python2" /\
  Interpreters.get_languages_from_shebang u INTERPRETERS
    (file_of_string "#!/usr/bin/python2.7") =
  match assoc Text.eqb (of_string "python") INTERPRETERS with
  | Some languages => Ok languages
  | None => Ok []
  end.
Proof.
  split; [reflexivity|]. split; [reflexivity|]. split; [discriminate|].
  vm_compute. reflexivity.
Qed.

(** ** Classifier *)

Import Classifier.

Lemma insert_by_perm {A} (cmp : A -> A -> comparison) (x : A) (l : list A) :
  Permutation (insert_by cmp x l) (x :: l).
Proof.
  induction l as [|y l IH]; simpl; [reflexivity|].
  destruct (cmp x y); try reflexivity.
  rewrite IH. apply perm_swap.
Qed.

Lemma sort_by_perm {A} (cmp : A -> A -> comparison) (l : list A) :
  Permutation (sort_by cmp l) l.
Proof.
  induction l as [|x l IH]; simpl; [reflexivity|].
  rewrite insert_by_perm, IH. reflexivity.
Qed.

Lemma LANGUAGES_nonempty : LANGUAGES <> [].
Proof. discriminate. Qed.

(** On any candidate list the classifier returns a language, taken from the
    candidates when there are some and from [LANGUAGES] otherwise. *)
Lemma classify_some (TLP : list (string * list (text * float)))
  (content : text) (S : list string) :
  exists L, classify TLP content S = Some L /\
            In L (match S with [] => LANGUAGES | _ => S end).
Proof.
  unfold classify.
  set (C := match S with [] => LANGUAGES | _ => S end).
  assert (HC : C <> []) by (subst C; destruct S; [exact LANGUAGES_nonempty|discriminate]).
  set (f := fun language => {| language := language;
                               score := language_score TLP content language |}).
  pose proof (sort_by_perm by_score_desc (map f C)) as Hp.
  destruct (sort_by by_score_desc (map f C)) as [|top rest] eqn:Es.
  - apply Permutation_nil in Hp. destruct C; [congruence|discriminate].
  - exists (language top). split; [reflexivity|].
    assert (Hin : In top (map f C)).
    { apply (Permutation_in _ Hp). left. reflexivity. }
    apply in_map_iff in Hin as [l [Hl HlC]]. subst top. exact HlC.
Qed.

(** C9: the classifier always returns a language (it does not fail on an
    empty candidate list), a member of the candidates when there are some and
    of [LANGUAGES] otherwise. *)
Theorem classify_returns_candidate (TLP : list (string * list (text * float)))
  (content : text) (S : list string) :
  exists L, classify TLP content S = Some L /\
            (S <> [] -> In L S) /\ (S = [] -> In L LANGUAGES).
Proof.
  destruct (classify_some TLP content S) as [L [HL Hin]].
  exists L. split; [exact HL|].
  destruct S as [|s S']; split; intros H; try congruence; exact Hin.
Qed.

(** ** The detection pipeline *)

Import Pipeline.

(** [path.file_name().and_then(|f| f.to_str())]. *)
Definition basename (p : path) : option text :=
  match file_name p with
  | Some os_filename => decode os_filename
  | None => None
  end.

Definition filename_language (kb : KnowledgeBase) (p : path) : option string :=
  match basename p with
  | Some filename => assoc Text.eqb filename (FILENAMES kb)
  | None => None
  end.

Definition extension_of (kb : KnowledgeBase) (p : path) : option text :=
  match basename p with
  | Some filename => Extensions.get_extension (EXTENSIONS kb) filename
  | None => None
  end.

Definition extension_candidates (kb : KnowledgeBase) (p : path) : list string :=
  match extension_of kb p with
  | Some ext => Extensions.get_languages_from_extension (EXTENSIONS kb) ext
  | None => []
  end.

(** The heuristics stage of [detect], run on more than one candidate. *)
Definition heuristics_stage (kb : KnowledgeBase) (extension : option text)
  (candidates : list string) (content : text) : list string :=
  if 1 <? List.length candidates then
    match extension with
    | Some extension =>
        filter_candidates candidates
          (Heuristics.get_languages (pcre_is_match kb) (DISAMBIGUATIONS kb) extension
             candidates content)
    | None => candidates
    end
  else candidates.

(** [detect] written stage by stage with the names above. *)
Definition detect_staged (kb : KnowledgeBase) (u : Unicode) (fs : fs_t) (p : path)
  : result (option Detection) :=
  match file_name p with
  | None => Ok None
  | Some _ =>
  match filename_language kb p with
  | Some L => Ok (Some (Filename L))
  | None =>
  let candidates := extension_candidates kb p in
  match candidates with
  | [L] => Ok (Some (Extension L))
  | _ =>
  match fs p with
  | None => Err NotFound
  | Some bytes =>
  match Interpreters.get_languages_from_shebang u (INTERPRETERS kb) bytes with
  | Err e => Err e
  | Ok shebang_languages =>
  let candidates := filter_candidates candidates shebang_languages in
  match candidates with
  | [L] => Ok (Some (Shebang L))
  | _ =>
  match decode bytes with
  | None => Err InvalidData
  | Some content =>
  let content := truncate_to_char_boundary content MAX_CONTENT_SIZE_BYTES in
  let candidates := heuristics_stage kb (extension_of kb p) candidates content in
  match candidates with
  | [] => Ok None
  | [L] => Ok (Some (Heuristics L))
  | _ =>
      match classify (TOKEN_LOG_PROBABILITIES kb) content candidates with
      | Some l => Ok (Some (Classifier l))
      | None => Ok None
      end
  end
  end
  end
  end
  end
  end
  end
  end.

Lemma detect_staged_eq kb u fs p : detect kb u fs p = detect_staged kb u fs p.
Proof.
  unfold detect, detect_staged, filename_language, extension_candidates, extension_of,
    basename, heuristics_stage.
  destruct (file_name p) as [os|]; [|reflexivity].
  destruct (decode os) as [fn|]; reflexivity.
Qed.

(** C10: a path without a file name gives [Ok None], a file name listed in
    [FILENAMES] gives [Filename], and an extension with one language gives a
    detection, whatever the file system holds: the file is not opened, so no
    I/O error can come out even when no file exists. *)
Theorem detect_without_io (kb : KnowledgeBase) (u : Unicode) (p : path) :
  (file_name p = None -> forall fs, detect kb u fs p = Ok None) /\
  (forall L, filename_language kb p = Some L ->
     forall fs, detect kb u fs p = Ok (Some (Filename L))) /\
  (forall L, extension_candidates kb p = [L] ->
     exists d, forall fs, detect kb u fs p = Ok (Some d)) /\
  (forall fs, detect kb u fs (file_of_string "src/..") = Ok None).
Proof.
  split; [|split; [|split]].
  - intros H fs. rewrite detect_staged_eq. unfold detect_staged. rewrite H. reflexivity.
  - intros L H fs. rewrite detect_staged_eq. unfold detect_staged. rewrite H.
    unfold filename_language, basename in H.
    destruct (file_name p); [reflexivity|discriminate].
  - intros L H.
    destruct (file_name p) as [os|] eqn:Ef.
    + destruct (filename_language kb p) as [L'|] eqn:Efl.
      * exists (Filename L'). intros fs. rewrite detect_staged_eq. unfold detect_staged.
        rewrite Ef, Efl. reflexivity.
      * exists (Extension L). intros fs. rewrite detect_staged_eq. unfold detect_staged.
        rewrite Ef, Efl, H. reflexivity.
    + exfalso. unfold extension_candidates, extension_of, basename in H.
      rewrite Ef in H. discriminate.
  - intros fs. reflexivity.
Qed.

(** C1: [detect] runs Filename, Extension, Shebang, Heuristics and
    Classifier in this order and stops at the first stage that settles the
    language; after the heuristics stage no candidate gives [Ok None], one
    gives [Heuristics] and several give the classifier's choice among them. *)
Theorem detect_cascade (kb : KnowledgeBase) (u : Unicode) (fs : fs_t) (p : path) :
  (forall L, filename_language kb p = Some L ->
     detect kb u fs p = Ok (Some (Filename L))) /\
  (forall L, filename_language kb p = None -> extension_candidates kb p = [L] ->
     detect kb u fs p = Ok (Some (Extension L))) /\
  (forall bytes shebang_languages L,
     file_name p <> None -> filename_language kb p = None ->
     (forall L', extension_candidates kb p <> [L']) ->
     fs p = Some bytes ->
     Interpreters.get_languages_from_shebang u (INTERPRETERS kb) bytes = Ok shebang_languages ->
     filter_candidates (extension_candidates kb p) shebang_languages = [L] ->
     detect kb u fs p = Ok (Some (Shebang L))) /\
  (forall bytes shebang_languages content,
     file_name p <> None -> filename_language kb p = None ->
     (forall L', extension_candidates kb p <> [L']) ->
     fs p = Some bytes ->
     Interpreters.get_languages_from_shebang u (INTERPRETERS kb) bytes = Ok shebang_languages ->
     (forall L', filter_candidates (extension_candidates kb p) shebang_languages <> [L']) ->
     decode bytes = Some content ->
     let content := truncate_to_char_boundary content MAX_CONTENT_SIZE_BYTES in
     let candidates :=
       heuristics_stage kb (extension_of kb p)
         (filter_candidates (extension_candidates kb p) shebang_languages) content in
     match candidates with
     | [] => detect kb u fs p = Ok None
     | [L] => detect kb u fs p = Ok (Some (Heuristics L))
     | _ => exists L, classify (TOKEN_LOG_PROBABILITIES kb) content candidates = Some L /\
                      In L candidates /\
                      detect kb u fs p = Ok (Some (Classifier L))
     end).
Proof.
  rewrite detect_staged_eq. unfold detect_staged.
  split; [|split; [|split]].
  - intros L H. rewrite H. unfold filename_language, basename in H.
    destruct (file_name p); [reflexivity|discriminate].
  - intros L H1 H2. rewrite H1, H2.
    unfold extension_candidates, extension_of, basename in H2.
    destruct (file_name p); [reflexivity|discriminate].
  - intros bytes sl L Hf H1 H2 H3 H4 H5.
    destruct (file_name p) as [os|]; [|congruence].
    rewrite H1. rewrite H3, H4, H5.
    destruct (extension_candidates kb p) as [|c [|c' r]]; try reflexivity.
    exfalso. exact (H2 c eq_refl).
  - intros bytes sl content0 Hf H1 H2 H3 H4 H5 H6. cbv zeta.
    destruct (file_name p) as [os|]; [|congruence].
    rewrite H1, H3, H4.
    destruct (extension_candidates kb p) as [|c [|c' r]];
      [| exfalso; exact (H2 c eq_refl) |];
      (destruct (filter_candidates _ sl) as [|d [|d' r']];
       [| exfalso; exact (H5 d eq_refl) |]);
      rewrite H6;
      (destruct (heuristics_stage _ _ _ _) as [|h [|h' r'']]; try reflexivity);
      (destruct (classify_some (TOKEN_LOG_PROBABILITIES kb)
                   (truncate_to_char_boundary content0 MAX_CONTENT_SIZE_BYTES)
                   (h :: h' :: r'')) as [L [HL Hin]];
       exists L; rewrite HL; split; [reflexivity|split; [exact Hin|reflexivity]]).
Qed.

(** ** The tokens the classifier scores *)

Ltac split_bool_hyps :=
  repeat match goal with
  | H : _ || _ = true |- _ => apply Bool.orb_true_iff in H; destruct H
  | H : _ && _ = true |- _ => apply andb_prop in H; destruct H
  | H : (_ <=? _)%N = true |- _ => apply N.leb_le in H
  | H : (_ =? _)%N = true |- _ => apply N.eqb_eq in H
  end.

Lemma text_char_not_whitespace (c : N) :
  Logos.is_text_char c = true -> is_whitespace c = false.
Proof.
  intros H. destruct (is_whitespace c) eqn:E; [|reflexivity]. exfalso.
  unfold Logos.is_text_char, is_ascii_alphanumeric, is_ascii_alphabetic,
    is_ascii_upper, is_ascii_lower, is_ascii_digit in H.
  unfold is_whitespace in E. unfold in_range in *.
  split_bool_hyps; lia.
Qed.

(** What a token of [Logos.tokenize] looks like: a non-empty run of
    [[A-Za-z0-9_]], or one character that is neither such a character nor
    whitespace. *)
Definition logos_token_shape (t : text) : Prop :=
  (t <> [] /\ forallb Logos.is_text_char t = true) \/
  (exists c, t = [c] /\ Logos.is_text_char c = false /\ is_whitespace c = false).

Definition not_whitespace (c : N) : bool := negb (is_whitespace c).

Definition token_text (t : Logos.Token) : list text :=
  match t with Logos.Text t | Logos.Symbol t => [t] | Logos.Error => [] end.

Lemma flush_run_spec (run : text) :
  forallb Logos.is_text_char run = true ->
  List.concat (flat_map token_text (match run with [] => [] | _ => [Logos.Text (rev run)] end))
    = rev run /\
  Forall logos_token_shape
    (flat_map token_text (match run with [] => [] | _ => [Logos.Text (rev run)] end)).
Proof.
  intros H. destruct run as [|c run']; simpl; [split; [reflexivity|constructor]|].
  rewrite app_nil_r. split; [reflexivity|].
  constructor; [|constructor]. left. split.
  - intros E. apply (f_equal (@List.length N)) in E. rewrite length_app in E.
    simpl in E. lia.
  - rewrite forallb_app. simpl. simpl in H. apply andb_prop in H as [H1 H2].
    rewrite H1. rewrite forallb_forall in *. 
    assert (forallb Logos.is_text_char (rev run') = true) as ->.
    { apply forallb_forall. intros x Hx. apply H2. apply in_rev, Hx. }
    reflexivity.
Qed.

Lemma lex_aux_spec (s run : text) :
  forallb Logos.is_text_char run = true ->
  List.concat (flat_map token_text (Logos.lex_aux run s)) = rev run ++ filter not_whitespace s /\
  Forall logos_token_shape (flat_map token_text (Logos.lex_aux run s)).
Proof.
  revert run. induction s as [|c s IH]; intros run Hrun.
  - simpl. rewrite app_nil_r. apply flush_run_spec, Hrun.
  - simpl. destruct (Logos.is_text_char c) eqn:Hc.
    + destruct (IH (c :: run)) as [H1 H2]; [simpl; rewrite Hc; exact Hrun|].
      split; [|exact H2]. rewrite H1. unfold not_whitespace at 2.
      rewrite (text_char_not_whitespace c Hc). simpl. rewrite <- app_assoc. reflexivity.
    + destruct (flush_run_spec run Hrun) as [F1 F2].
      destruct (IH [] eq_refl) as [H1 H2].
      rewrite flat_map_app, concat_app, Forall_app, F1.
      unfold not_whitespace in *. simpl filter.
      destruct (is_whitespace c) eqn:Hw; simpl.
      * split; [rewrite H1; reflexivity|]. split; [exact F2|exact H2].
      * split; [rewrite H1; reflexivity|]. split; [exact F2|].
        constructor; [|exact H2]. right. exists c. split; [reflexivity|split; assumption].
Qed.

(** The tokens the classifier scores (C4 concerns them): the classifier scores the tokens of the [logos]
    tokenizer over the whole content, with no notion of comment, string or
    number: they are the non-empty runs of [[A-Za-z0-9_]] and the single other
    non-whitespace characters, and together they spell the content with its
    whitespace removed; the scored ones are those of at most 32 bytes. *)
Theorem scored_tokens_cover_content (content : text) :
  List.concat (Logos.tokenize content) = filter not_whitespace content /\
  Forall logos_token_shape (Logos.tokenize content) /\
  scored_tokens content =
    filter (fun t => byte_len t <=? 32) (Logos.tokenize content).
Proof.
  destruct (lex_aux_spec content [] eq_refl) as [H1 H2].
  split; [exact H1|split; [exact H2|reflexivity]].
Qed.

(** C4 (code bug): in [s = 'text'; n = 42; /* note */] the string body
    [text], the number [42] and the comment [note], with the comment
    delimiters, are among the tokens [classify] scores, while the table it
    reads was trained on key tokens, without comments, strings and numbers. *)
Lemma scored_tokens_keep_comments_strings_numbers :
  scored_tokens (of_string "s = 'text'; n = 42; /* note */") =
    map of_string ["s"; "="; "'"; "text"; "'"; ";"; "n"; "="; "42"; ";";
                   "/"; "*"; "note"; "*"; "/"]%string.
Proof. vm_compute. reflexivity. Qed.

(** ** Classifier ranking *)

(** A sort key for the non-NaN [spec_float]s: [SFcompare] is the
    lexicographic order of the keys. *)
Definition sf_key (x : spec_float) : Z * Z * Z :=
  match x with
  | S754_infinity true => (0, 0, 0)%Z
  | S754_finite true m e => (1, - e, Zneg m)%Z
  | S754_zero _ => (2, 0, 0)%Z
  | S754_finite false m e => (3, e, Zpos m)%Z
  | S754_infinity false => (4, 0, 0)%Z
  | S754_nan => (5, 0, 0)%Z
  end.

Definition zcmp3 (a b : Z * Z * Z) : comparison :=
  let '(a1, a2, a3) := a in
  let '(b1, b2, b3) := b in
  match Z.compare a1 b1 with
  | Eq => match Z.compare a2 b2 with Eq => Z.compare a3 b3 | c => c end
  | c => c
  end.

Definition lex_lt (a b : Z * Z * Z) : Prop :=
  let '(a1, a2, a3) := a in
  let '(b1, b2, b3) := b in
  (a1 < b1 \/ (a1 = b1 /\ (a2 < b2 \/ (a2 = b2 /\ a3 < b3))))%Z.

Lemma zcmp3_Lt a b : zcmp3 a b = Lt <-> lex_lt a b.
Proof.
  destruct a as [[a1 a2] a3], b as [[b1 b2] b3]. simpl.
  destruct (Z.compare_spec a1 b1); [destruct (Z.compare_spec a2 b2);
    [destruct (Z.compare_spec a3 b3)|..]|..];
  split; intros Hs; try discriminate; try reflexivity; lia.
Qed.

Lemma zcmp3_Gt a b : zcmp3 a b = Gt <-> lex_lt b a.
Proof.
  destruct a as [[a1 a2] a3], b as [[b1 b2] b3]. simpl.
  destruct (Z.compare_spec a1 b1); [destruct (Z.compare_spec a2 b2);
    [destruct (Z.compare_spec a3 b3)|..]|..];
  split; intros Hs; try discriminate; try reflexivity; lia.
Qed.

Lemma lex_lt_trans a b c : lex_lt a b -> lex_lt b c -> lex_lt a c.
Proof.
  destruct a as [[a1 a2] a3], b as [[b1 b2] b3], c as [[c1 c2] c3]. simpl. lia.
Qed.

Lemma lex_lt_total a b : ~ lex_lt a b -> ~ lex_lt b a -> a = b.
Proof.
  destruct a as [[a1 a2] a3], b as [[b1 b2] b3]. simpl. intros H1 H2.
  assert (a1 = b1 /\ a2 = b2 /\ a3 = b3) as [-> [-> ->]] by lia. reflexivity.
Qed.

Lemma SFcompare_key (x y : spec_float) :
  x <> S754_nan -> y <> S754_nan -> SFcompare x y = Some (zcmp3 (sf_key x) (sf_key y)).
Proof.
  intros Hx Hy.
  destruct x as [sx|sx| |sx mx ex]; try congruence;
  destruct y as [sy|sy| |sy my ey]; try congruence;
  destruct sx, sy; simpl; try reflexivity.
  - rewrite Z.compare_opp.
    destruct (Z.compare_spec ey ex); destruct (Z.compare_spec ex ey); try lia; reflexivity.
Qed.

Lemma not_nan_sf (x : float) : PrimFloat.is_nan x = false -> Prim2SF x <> S754_nan.
Proof.
  unfold PrimFloat.is_nan. rewrite eqb_spec. unfold SFeqb.
  intros H E. rewrite E in H. discriminate.
Qed.

Definition fkey (x : float) : Z * Z * Z := sf_key (Prim2SF x).

Lemma float_ltb_key (x y : float) :
  PrimFloat.is_nan x = false -> PrimFloat.is_nan y = false ->
  (x <? y)%float = true <-> lex_lt (fkey x) (fkey y).
Proof.
  intros Hx Hy. rewrite ltb_spec. unfold SFltb, fkey.
  rewrite SFcompare_key by (apply not_nan_sf; assumption).
  rewrite <- zcmp3_Lt. destruct (zcmp3 _ _); split; congruence.
Qed.

Lemma float_leb_key (x y : float) :
  PrimFloat.is_nan x = false -> PrimFloat.is_nan y = false ->
  (x <=? y)%float = true <-> ~ lex_lt (fkey y) (fkey x).
Proof.
  intros Hx Hy. rewrite leb_spec. unfold SFleb, fkey.
  rewrite SFcompare_key by (apply not_nan_sf; assumption).
  rewrite <- zcmp3_Gt. destruct (zcmp3 _ _); split; congruence.
Qed.

Lemma float_compare_gt_key (x y : float) :
  PrimFloat.is_nan x = false -> PrimFloat.is_nan y = false ->
  (x ?= y)%float = FGt <-> lex_lt (fkey y) (fkey x).
Proof.
  intros Hx Hy. rewrite compare_spec. unfold fkey.
  rewrite SFcompare_key by (apply not_nan_sf; assumption).
  rewrite <- zcmp3_Gt. destruct (zcmp3 _ _); simpl; split; congruence.
Qed.

Section FirstMax.

Context {A : Type} (cmp : A -> A -> comparison) (P : A -> Prop) (lt le : A -> A -> Prop).

Hypothesis cmp_gt : forall x y, P x -> P y -> cmp x y = Gt <-> lt x y.
Hypothesis le_total : forall x y, P x -> P y -> ~ lt x y -> le y x.
Hypothesis lt_le : forall x y, P x -> P y -> lt x y -> le x y.
Hypothesis le_trans : forall x y z, P x -> P y -> P z -> le x y -> le y z -> le x z.

(** The stable insertion sort puts first the first element that no earlier
    element ties or beats and no later element beats. *)
Lemma sort_by_first_max (l : list A) :
  l <> [] -> Forall P l ->
  exists pre m post, l = pre ++ m :: post /\ hd_error (sort_by cmp l) = Some m /\
    Forall (fun z => lt z m) pre /\ Forall (fun z => le z m) post.
Proof.
  induction l as [|x l IH]; intros Hne HP; [congruence|].
  inversion HP as [|x' l' Px Pl]; subst.
  destruct l as [|y l0].
  - exists [], x, []. repeat split; constructor.
  - destruct (IH ltac:(discriminate) Pl) as [pre [m [post [Hl [Hhd [Hpre Hpost]]]]]].
    assert (Pm : P m) by (rewrite Hl in Pl; apply Forall_app in Pl as [_ Pl];
                          inversion Pl; assumption).
    rewrite Hl in Pl. apply Forall_app in Pl as [Ppre Pmpost].
    inversion Pmpost as [|m' post' Pm' Ppost]; subst.
    simpl sort_by. simpl sort_by in Hhd.
    destruct (insert_by cmp y (sort_by cmp l0)) as [|m' rest] eqn:Es; [discriminate|].
    simpl in Hhd. injection Hhd as ->. cbn [insert_by].
    destruct (cmp x m) eqn:Hc.
    1,2: exists [], x, (y :: l0); simpl; split; [reflexivity|split; [reflexivity|]];
      split; [constructor|];
      assert (Hmx : le m x) by
        (apply le_total; try assumption; intros Hlt;
         apply (cmp_gt x m Px Pm) in Hlt; congruence);
      rewrite Hl; apply Forall_app; split;
      [ rewrite Forall_forall in *; intros z Hz;
        apply (le_trans z m x); eauto
      | constructor; [exact Hmx|];
        rewrite Forall_forall in *; intros z Hz;
        apply (le_trans z m x); eauto ].
    exists (x :: pre), m, post. rewrite Hl. simpl.
    split; [reflexivity|split; [reflexivity|split; [|exact Hpost]]].
    constructor; [|exact Hpre]. apply (cmp_gt x m Px Pm), Hc.
Qed.

End FirstMax.

(** The score of a language as the classifier's description gives it:
    negative infinity without an entry in the table, else the sum, from
    left to right and starting at [0], of the log-probabilities of the
    tokens of at most 32 bytes, [-19] for a token the table lacks. *)
Definition spec_score (TLP : list (string * list (text * float))) (content : text)
  (L : string) : float :=
  match assoc String.eqb L TLP with
  | None => neg_infinity
  | Some table =>
      fold_left (fun sum p => (sum + p)%float)
        (map (fun t => match assoc Text.eqb t table with
                       | Some p => p
                       | None => (-19)%float
                       end)
           (filter (fun t => byte_len t <=? 32) (Logos.tokenize content)))
        0%float
  end.

Lemma fold_left_map_fun {A B C} (g : C -> B -> C) (f : A -> B) (l : list A) (c : C) :
  fold_left g (map f l) c = fold_left (fun acc x => g acc (f x)) l c.
Proof. revert c. induction l as [|x l IH]; intros c; simpl; auto. Qed.

Lemma language_score_spec TLP content L :
  language_score TLP content L = spec_score TLP content L.
Proof.
  unfold language_score, spec_score, scored_tokens.
  destruct (assoc String.eqb L TLP); [|reflexivity].
  rewrite fold_left_map_fun. reflexivity.
Qed.

Definition score_ok (a : LanguageScore) : Prop := PrimFloat.is_nan (score a) = false.

Definition score_lt (a b : LanguageScore) : Prop := (score a <? score b)%float = true.

Definition score_le (a b : LanguageScore) : Prop := (score a <=? score b)%float = true.

Lemma by_score_desc_gt a b :
  score_ok a -> score_ok b -> by_score_desc a b = Gt <-> score_lt a b.
Proof.
  intros Ha Hb. unfold by_score_desc, score_lt, score_ok in *.
  rewrite (float_ltb_key _ _ Ha Hb), <- (float_compare_gt_key _ _ Hb Ha).
  destruct (score b ?= score a)%float; split; congruence.
Qed.

Lemma score_le_total a b :
  score_ok a -> score_ok b -> ~ score_lt a b -> score_le b a.
Proof.
  intros Ha Hb H. unfold score_lt, score_le, score_ok in *.
  rewrite (float_ltb_key _ _ Ha Hb) in H. apply (float_leb_key _ _ Hb Ha). exact H.
Qed.

Lemma score_lt_le a b : score_ok a -> score_ok b -> score_lt a b -> score_le a b.
Proof.
  intros Ha Hb H. unfold score_lt, score_le, score_ok in *.
  rewrite (float_ltb_key _ _ Ha Hb) in H. apply (float_leb_key _ _ Ha Hb).
  intros H'. destruct (fkey (score a)) as [[a1 a2] a3], (fkey (score b)) as [[b1 b2] b3].
  simpl in *. lia.
Qed.

Lemma score_le_trans a b c :
  score_ok a -> score_ok b -> score_ok c -> score_le a b -> score_le b c -> score_le a c.
Proof.
  intros Ha Hb Hc H1 H2. unfold score_le, score_ok in *.
  rewrite (float_leb_key _ _ Ha Hb) in H1. rewrite (float_leb_key _ _ Hb Hc) in H2.
  apply (float_leb_key _ _ Ha Hc). intros H3.
  destruct (fkey (score a)) as [[a1 a2] a3], (fkey (score b)) as [[b1 b2] b3],
    (fkey (score c)) as [[c1 c2] c3].
  simpl in *. lia.
Qed.

(** C2: on a non-empty candidate list whose scores are numbers (not NaN),
    the scores being those of the description, the classifier returns the
    first candidate of greatest score: every earlier candidate scores
    strictly less and no later one more, which is the head of the stable
    sort in descending order. *)
Theorem classify_first_best (TLP : list (string * list (text * float)))
  (content : text) (S : list string) (HS : S <> [])
  (Hnum : forall L, In L S -> PrimFloat.is_nan (spec_score TLP content L) = false) :
  exists pre L post,
    S = pre ++ L :: post /\
    classify TLP content S = Some L /\
    Forall (fun L' => (spec_score TLP content L' <? spec_score TLP content L)%float = true) pre /\
    Forall (fun L' => (spec_score TLP content L' <=? spec_score TLP content L)%float = true) post.
Proof.
  set (f := fun language => {| language := language;
                               score := language_score TLP content language |}).
  assert (HP : Forall score_ok (map f S)).
  { apply Forall_map, Forall_forall. intros L HL. unfold score_ok, f. simpl.
    rewrite language_score_spec. apply Hnum, HL. }
  destruct (sort_by_first_max by_score_desc score_ok score_lt score_le
              by_score_desc_gt score_le_total score_lt_le score_le_trans
              (map f S) ltac:(destruct S; [congruence|discriminate]) HP)
    as [pre [m [post [Hl [Hhd [Hpre Hpost]]]]]].
  apply map_eq_app in Hl as [S1 [S2 [-> [H1 H2]]]].
  apply map_eq_cons in H2 as [L [S3 [-> [HfL H3]]]].
  exists S1, L, S3. split; [reflexivity|split].
  - assert (Hc : match S1 ++ L :: S3 with [] => LANGUAGES | _ => S1 ++ L :: S3 end
                 = S1 ++ L :: S3) by (destruct S1; reflexivity).
    unfold classify. rewrite Hc. fold f.
    destruct (sort_by by_score_desc (map f (S1 ++ L :: S3)));
      simpl in Hhd |- *; [discriminate|].
    injection Hhd as ->. rewrite <- HfL. reflexivity.
  - subst pre post m. rewrite Forall_map in Hpre, Hpost. split.
    + eapply Forall_impl; [|exact Hpre]. intros L' H. unfold score_lt, f in H. simpl in H.
      rewrite !language_score_spec in H. exact H.
    + eapply Forall_impl; [|exact Hpost]. intros L' H. unfold score_le, f in H. simpl in H.
      rewrite !language_score_spec in H. exact H.
Qed.

(** C2 on two candidates, [C] without and [Rust] with an entry for [fn]. *)
Lemma classify_first_best_witness :
  let TLP := [("Rust"%string, [(of_string "fn", (-1)%float)]); ("C"%string, [])] in
  ["C"; "Rust"]%string <> [] /\
  (forall L, In L ["C"; "Rust"]%string ->
     PrimFloat.is_nan (spec_score TLP (of_string "fn main") L) = false) /\
  exists pre L post,
    ["C"; "Rust"]%string = pre ++ L :: post /\
    classify TLP (of_string "fn main") ["C"; "Rust"]%string = Some L /\
    Forall (fun L' => (spec_score TLP (of_string "fn main") L'
                        <? spec_score TLP (of_string "fn main") L)%float = true) pre /\
    Forall (fun L' => (spec_score TLP (of_string "fn main") L'
                        <=? spec_score TLP (of_string "fn main") L)%float = true) post.
Proof.
  intros TLP.
  assert (Hnum : forall L, In L ["C"; "Rust"]%string ->
            PrimFloat.is_nan (spec_score TLP (of_string "fn main") L) = false).
  { intros L [<-|[<-|[]]]; vm_compute; reflexivity. }
  split; [discriminate|]. split; [exact Hnum|].
  exact (classify_first_best TLP (of_string "fn main") ["C"; "Rust"]%string
           ltac:(discriminate) Hnum).
Defined.

(** ** The polyglot tokenizer's recovery path *)

Import Polyglot.

(** The byte spans of a token stream in order: each token starts at or after
    the end of the one before. *)
Fixpoint spans_ordered (last_stop : nat) (toks : list Token) : bool :=
  match toks with
  | [] => true
  | tok :: r =>
      match span tok with
      | Some (a, b) => (last_stop <=? a) && (a <=? b) && spans_ordered b r
      | None => false
      end
  end.

(** C8 (on [<!x]): the opener [<!--] fails at [x]; [block_comment] pushes
    [!] back with index [0 + token_start] (its [enumerate()] index, not its
    byte offset [1]), so the stream ends, without error, as [Symbol "<"],
    [Symbol "<"] (the slice [0..1] again, where [!] was expected) and
    [Ident "x"]: the first two spans coincide and [!] is never yielded. *)
Theorem block_comment_recovery_overlaps (u : Unicode) :
  collect u 4 (tokens (of_string "<!x")) =
    Some [Symbol (Sl 0 1); Symbol (Sl 0 1); Ident (Sl 2 3)] /\
  spans_ordered 0 [Symbol (Sl 0 1); Symbol (Sl 0 1); Ident (Sl 2 3)] = false.
Proof. split; reflexivity. Qed.

(* ================================================================== *)
(** * Further properties of the code *)

(** ** [truncate_to_char_boundary] *)

Lemma utf8_len_pos (c : N) : 1 <= utf8_len c.
Proof. unfold utf8_len. destruct (c <? 128)%N, (c <? 2048)%N, (c <? 65536)%N; lia. Qed.

Lemma byte_len_app (a b : text) : byte_len (a ++ b) = byte_len a + byte_len b.
Proof. induction a as [|c a IH]; simpl; [reflexivity|rewrite IH; lia]. Qed.

(** The boundaries are exactly the byte lengths of the prefixes. *)
Lemma is_char_boundary_iff (s : text) (index : nat) :
  is_char_boundary s index = true <-> exists k, index = byte_len (firstn k s).
Proof.
  revert index. induction s as [|c r IH]; intros index.
  - destruct index as [|i]; simpl.
    + split; [intros _; exists 0; reflexivity|reflexivity].
    + split; [discriminate|intros [k Hk]; rewrite firstn_nil in Hk; discriminate].
  - pose proof (utf8_len_pos c) as Hc. destruct index as [|i].
    + split; [intros _; exists 0; reflexivity|reflexivity].
    + cbn [is_char_boundary]. destruct (S i <? utf8_len c) eqn:E.
      * apply Nat.ltb_lt in E. split; [discriminate|].
        intros [[|k] Hk]; simpl in Hk; lia.
      * apply Nat.ltb_ge in E. rewrite IH. split.
        -- intros [k Hk]. exists (S k). simpl. lia.
        -- intros [[|k] Hk]; simpl in Hk; [lia|]. exists k. lia.
Qed.

(** The loop stops at the greatest boundary not above [max]. *)
Lemma walk_back_spec (s : text) (max : nat) :
  walk_back s max <= max /\ is_char_boundary s (walk_back s max) = true /\
  forall j, walk_back s max < j <= max -> is_char_boundary s j = false.
Proof.
  induction max as [|m IH].
  - assert (H0 : is_char_boundary s 0 = true) by (destruct s; reflexivity).
    change (walk_back s 0) with (if is_char_boundary s 0 then 0 else 0).
    rewrite H0. split; [lia|split; [exact H0|intros j Hj; lia]].
  - change (walk_back s (S m)) with
      (if is_char_boundary s (S m) then S m else walk_back s m).
    destruct (is_char_boundary s (S m)) eqn:E.
    + split; [lia|split; [exact E|intros j Hj; lia]].
    + destruct IH as [H1 [H2 H3]]. split; [lia|split; [exact H2|]].
      intros j Hj. destruct (Nat.eq_dec j (S m)) as [->|Hn]; [exact E|]. apply H3. lia.
Qed.

Lemma slice_to_prefix (s : text) (k : nat) : slice_to s (byte_len (firstn k s)) = firstn k s.
Proof.
  revert k. induction s as [|c r IH]; intros [|k]; simpl; try reflexivity.
  - pose proof (utf8_len_pos c). destruct (utf8_len c <=? 0) eqn:E; [apply Nat.leb_le in E; lia|].
    reflexivity.
  - rewrite (proj2 (Nat.leb_le _ _) (Nat.le_add_r _ _)).
    replace (utf8_len c + byte_len (firstn k r) - utf8_len c) with (byte_len (firstn k r)) by lia.
    rewrite IH. reflexivity.
Qed.

(** [truncate_to_char_boundary s max] is the longest prefix of [s] made of
    whole characters whose UTF-8 length is at most [max] bytes: it is a
    prefix, it fits, and the next character (if any) would not fit. *)
Theorem truncate_to_char_boundary_longest_prefix (s : text) (max : nat) :
  exists rest, s = truncate_to_char_boundary s max ++ rest /\
    byte_len (truncate_to_char_boundary s max) <= max /\
    match rest with
    | [] => True
    | c :: _ => max < byte_len (truncate_to_char_boundary s max) + utf8_len c
    end.
Proof.
  unfold truncate_to_char_boundary.
  destruct (byte_len s <=? max) eqn:E.
  - exists []. rewrite app_nil_r. apply Nat.leb_le in E. split; [reflexivity|split; [exact E|exact I]].
  - destruct (walk_back_spec s max) as [H1 [H2 H3]].
    apply is_char_boundary_iff in H2 as [k Hk].
    rewrite Hk, slice_to_prefix. rewrite Hk in H1, H3.
    exists (skipn k s). split; [symmetry; apply firstn_skipn|split; [exact H1|]].
    destruct (skipn k s) as [|c rest] eqn:Es; [exact I|].
    assert (Hn : byte_len (firstn (S k) s) = byte_len (firstn k s) + utf8_len c).
    { rewrite <- (firstn_skipn k s) at 1. rewrite Es, firstn_app.
      rewrite length_firstn.
      destruct (Nat.le_ge_cases k (List.length s)) as [Hl|Hl].
      - rewrite Nat.min_l by exact Hl.
        replace (S k - k) with 1 by lia. rewrite firstn_all2 by (rewrite length_firstn; lia).
        simpl. rewrite byte_len_app. simpl. lia.
      - rewrite skipn_all2 in Es by exact Hl. discriminate. }
    destruct (Nat.le_gt_cases (byte_len (firstn k s) + utf8_len c) max) as [Hle|Hgt]; [|exact Hgt].
    exfalso. pose proof (utf8_len_pos c).
    assert (Hb : is_char_boundary s (byte_len (firstn (S k) s)) = true)
      by (apply is_char_boundary_iff; exists (S k); reflexivity).
    rewrite H3 in Hb; [discriminate|]. lia.
Qed.

(** ** Where the languages of [detect] come from *)

Lemma filter_candidates_incl (prev new : list string) (x : string) :
  In x (filter_candidates prev new) -> In x prev \/ In x new.
Proof.
  unfold filter_candidates. intros H.
  destruct prev as [|p prev']; [right; exact H|].
  destruct new as [|n new']; [left; exact H|].
  destruct (filter (fun l => contains (n :: new') l) (p :: prev')) as [|y ys] eqn:E;
    [left; exact H|].
  rewrite <- E in H. apply filter_In in H as [H _]. left. exact H.
Qed.

Lemma walk_rules_in is_match (rules : list Heuristics.Rule) (content : text) (x : string) :
  In x (Heuristics.walk_rules is_match rules content) ->
  exists r, In r rules /\ In x (Heuristics.languages r).
Proof.
  induction rules as [|r rules IH]; simpl; [intros []|].
  destruct (Heuristics.pattern r) as [p|].
  - destruct (Heuristics.matches is_match p content); intros H.
    + exists r. split; [left; reflexivity|exact H].
    + destruct (IH H) as [r' [Hr' Hx]]. exists r'. split; [right; exact Hr'|exact Hx].
  - intros H. exists r. split; [left; reflexivity|exact H].
Qed.

Lemma get_languages_incl is_match DIS extension candidates content x :
  In x (Heuristics.get_languages is_match DIS extension candidates content) ->
  In x candidates.
Proof.
  unfold Heuristics.get_languages.
  destruct (assoc Text.eqb extension DIS) as [rules|]; [|intros []].
  intros H. apply walk_rules_in in H as [r [Hr Hx]].
  apply filter_In in Hr as [_ Hall]. rewrite forallb_forall in Hall.
  apply contains_In, Hall, Hx.
Qed.

(** The heuristic resolver only ever returns languages of the candidate list
    it is given. *)
Theorem get_languages_within_candidates (is_match : string -> text -> option bool)
  (DIS : list (text * list Heuristics.Rule)) (extension : text)
  (candidates : list string) (content : text) :
  incl (Heuristics.get_languages is_match DIS extension candidates content) candidates.
Proof. intros x. apply get_languages_incl. Qed.

Lemma heuristics_stage_incl kb ext cands content x :
  In x (heuristics_stage kb ext cands content) -> In x cands.
Proof.
  unfold heuristics_stage. destruct (1 <? List.length cands); [|auto].
  destruct ext as [e|]; [|auto]. intros H.
  apply filter_candidates_incl in H as [H|H]; [exact H|].
  eapply get_languages_incl, H.
Qed.

(** A language taken from the extension's languages or from those of the
    shebang line of the file at [p]. *)
Definition from_extension_or_shebang (kb : KnowledgeBase) (u : Unicode) (fs : fs_t)
  (p : path) (L : string) : Prop :=
  exists bytes shebang_languages,
    fs p = Some bytes /\
    Interpreters.get_languages_from_shebang u (INTERPRETERS kb) bytes = Ok shebang_languages /\
    (In L (extension_candidates kb p) \/ In L shebang_languages).

(** Every language [detect] reports has a source in the tables: a
    [Filename] is the file name's entry, an [Extension] the single language
    of the extension, and a [Shebang], [Heuristics] or [Classifier]
    detection names one of the extension's languages or of the languages of
    the file's shebang line. *)
Theorem detect_language_provenance (kb : KnowledgeBase) (u : Unicode) (fs : fs_t)
  (p : path) (d : Detection) :
  detect kb u fs p = Ok (Some d) ->
  match d with
  | Filename L => filename_language kb p = Some L
  | Extension L => extension_candidates kb p = [L]
  | Shebang L | Pipeline.Heuristics L | Pipeline.Classifier L =>
      from_extension_or_shebang kb u fs p L
  end.
Proof.
  rewrite detect_staged_eq. unfold detect_staged. intros H.
  destruct (file_name p) as [os|]; [|discriminate].
  destruct (filename_language kb p) as [L|]; [injection H as <-; reflexivity|].
  cbv zeta in H.
  destruct (fs p) as [bytes|] eqn:Efs.
  2:{ destruct (extension_candidates kb p) as [|c0 [|c1 r]] eqn:Ec;
      [discriminate| injection H as <-; reflexivity | discriminate]. }
  destruct (Interpreters.get_languages_from_shebang u (INTERPRETERS kb) bytes)
    as [sl|e] eqn:Esh.
  2:{ destruct (extension_candidates kb p) as [|c0 [|c1 r]] eqn:Ec;
      [discriminate| injection H as <-; reflexivity | discriminate]. }
  assert (Hsrc : forall L, In L (filter_candidates (extension_candidates kb p) sl) ->
                   from_extension_or_shebang kb u fs p L).
  { intros L HL. exists bytes, sl. split; [exact Efs|split; [exact Esh|]].
    apply filter_candidates_incl, HL. }
  destruct (extension_candidates kb p) as [|c0 [|c1 r]] eqn:Ec;
    [| injection H as <-; reflexivity |];
  (destruct (filter_candidates _ sl) as [|f0 [|f1 fr]] eqn:Ef;
   [| injection H as <-; apply Hsrc; left; reflexivity |]);
  (destruct (decode bytes) as [content|]; [|discriminate]);
  (remember (heuristics_stage kb (extension_of kb p) _ _) as Hs eqn:Eh);
  (destruct Hs as [|h0 [|h1 hr]];
   [ discriminate
   | injection H as <-; apply Hsrc; eapply heuristics_stage_incl;
     rewrite <- Eh; left; reflexivity
   | destruct (classify_some (TOKEN_LOG_PROBABILITIES kb)
                 (truncate_to_char_boundary content MAX_CONTENT_SIZE_BYTES)
                 (h0 :: h1 :: hr)) as [L' [HL' Hin]];
     rewrite HL' in H; injection H as <-; apply Hsrc; eapply heuristics_stage_incl;
     rewrite <- Eh; exact Hin ]).
Qed.

(** ** [get_extension] ignores ASCII case *)

Lemma strip_leading_dot (l : text) :
  match l with 46%N :: r => r | _ => l end =
  match l with c :: r => if (c =? 46)%N then r else l | [] => [] end.
Proof.
  destruct l as [|c r]; [reflexivity|].
  destruct (N.eq_dec c 46) as [->|Hc]; [reflexivity|].
  rewrite (proj2 (N.eqb_neq c 46) Hc).
  destruct c as [|q]; [reflexivity|]. repeat (destruct q as [q|q|]; try reflexivity).
  exfalso. apply Hc. reflexivity.
Qed.

Lemma to_ascii_lowercase_dot (c : N) : (to_ascii_lowercase c =? 46)%N = (c =? 46)%N.
Proof.
  unfold to_ascii_lowercase, is_ascii_upper, in_range.
  destruct ((65 <=? c)%N && (c <=? 90)%N) eqn:E; [|reflexivity].
  apply andb_prop in E as [E1 E2]. apply N.leb_le in E1. apply N.leb_le in E2.
  destruct (N.eqb_spec (c + 32) 46), (N.eqb_spec c 46); lia.
Qed.

Lemma to_ascii_lowercase_idem (c : N) :
  to_ascii_lowercase (to_ascii_lowercase c) = to_ascii_lowercase c.
Proof.
  unfold to_ascii_lowercase, is_ascii_upper, in_range.
  destruct ((65 <=? c)%N && (c <=? 90)%N) eqn:E; [|rewrite E; reflexivity].
  apply andb_prop in E as [E1 E2]. apply N.leb_le in E1. apply N.leb_le in E2.
  replace ((65 <=? c + 32)%N && (c + 32 <=? 90)%N) with false; [reflexivity|].
  symmetry. apply andb_false_iff. right. apply N.leb_gt. lia.
Qed.

Lemma map_lower_idem (l : text) :
  map to_ascii_lowercase (map to_ascii_lowercase l) = map to_ascii_lowercase l.
Proof.
  rewrite map_map. apply map_ext. intros x. apply to_ascii_lowercase_idem.
Qed.

Lemma get_extension_lowercase (EXT : list (text * list string)) (f : text) :
  Extensions.get_extension EXT (map to_ascii_lowercase f) = Extensions.get_extension EXT f.
Proof.
  unfold Extensions.get_extension. rewrite !strip_leading_dot.
  destruct f as [|c r]; [reflexivity|]. cbn [map]. rewrite to_ascii_lowercase_dot.
  destruct (c =? 46)%N.
  - rewrite map_lower_idem. reflexivity.
  - cbn [map]. rewrite to_ascii_lowercase_idem, map_lower_idem. reflexivity.
Qed.

(** Two file names that differ only in ASCII case have the same extension. *)
Theorem get_extension_ascii_case_insensitive (EXT : list (text * list string))
  (f1 f2 : text) (H : map to_ascii_lowercase f1 = map to_ascii_lowercase f2) :
  Extensions.get_extension EXT f1 = Extensions.get_extension EXT f2.
Proof.
  rewrite <- (get_extension_lowercase EXT f1), <- (get_extension_lowercase EXT f2), H.
  reflexivity.
Qed.

(** ** The [logos] tokenizer splits at whitespace *)

Lemma lex_aux_split_ws (run s1 s2 : text) (c : N) :
  is_whitespace c = true ->
  Logos.lex_aux run (s1 ++ c :: s2) = Logos.lex_aux run s1 ++ Logos.Error :: Logos.lex_aux [] s2.
Proof.
  intros Hw.
  assert (Ht : Logos.is_text_char c = false).
  { destruct (Logos.is_text_char c) eqn:E; [|reflexivity].
    apply text_char_not_whitespace in E. congruence. }
  revert run. induction s1 as [|a s1 IH]; intros run.
  - simpl. rewrite Ht, Hw. destruct run; reflexivity.
  - simpl. destruct (Logos.is_text_char a); [apply IH|].
    rewrite IH, <- app_assoc. reflexivity.
Qed.

(** A whitespace character separates tokens: the tokens of [s1], the
    whitespace and [s2] are those of [s1] followed by those of [s2]. *)
Theorem tokenize_split_at_whitespace (s1 s2 : text) (c : N) (Hw : is_whitespace c = true) :
  Logos.tokenize (s1 ++ c :: s2) = Logos.tokenize s1 ++ Logos.tokenize s2.
Proof.
  unfold Logos.tokenize, Logos.lexer. rewrite lex_aux_split_ws by exact Hw.
  rewrite flat_map_app. reflexivity.
Qed.

(** ** The shebang detector reads past the first line only for [sh] *)

Lemma break_line_cons (c : N) (r : file) :
  break_line (Ch c :: r) =
  if (c =? 10)%N then ([], Some r) else let (l, rest) := break_line r in (Ch c :: l, rest).
Proof.
  destruct (N.eq_dec c 10) as [->|Hc]; [reflexivity|].
  rewrite (proj2 (N.eqb_neq c 10) Hc).
  destruct c as [|q]; [reflexivity|]. repeat (destruct q as [q|q|]; try reflexivity).
  exfalso. apply Hc. reflexivity.
Qed.

Lemma break_line_first (line : text) (r : file) :
  ~ In 10%N line -> break_line (map Ch line ++ Ch 10 :: r) = (map Ch line, Some r).
Proof.
  induction line as [|c line IH]; intros Hn; [reflexivity|].
  simpl map. rewrite <- app_comm_cons, break_line_cons.
  destruct (N.eqb_spec c 10) as [->|Hc]; [exfalso; apply Hn; left; reflexivity|].
  rewrite IH by (intros H; apply Hn; right; exact H). reflexivity.
Qed.

Lemma strip_cr_none (line : text) :
  ~ In 13%N line ->
  match rev (map Ch line) with Ch 13 :: l' => rev l' | _ => map Ch line end = map Ch line.
Proof.
  intros Hn. rewrite <- map_rev.
  destruct (rev line) as [|c l'] eqn:E; [reflexivity|].
  assert (Hc : c <> 13%N).
  { intros ->. apply Hn. apply in_rev. rewrite E. left. reflexivity. }
  simpl map.
  destruct c as [|q]; [reflexivity|]. repeat (destruct q as [q|q|]; try reflexivity).
  exfalso. apply Hc. reflexivity.
Qed.

Lemma decode_map_Ch (t : text) : decode (map Ch t) = Some t.
Proof. induction t as [|c t IH]; [reflexivity|]. simpl. rewrite IH. reflexivity. Qed.

Lemma next_line_first (line : text) (r : file) :
  ~ In 10%N line -> ~ In 13%N line ->
  next_line (map Ch line ++ Ch 10 :: r) = Some (Ok line, r).
Proof.
  intros H10 H13. unfold next_line.
  destruct (map Ch line ++ Ch 10 :: r) as [|u0 f0] eqn:E;
    [destruct line; discriminate|].
  rewrite <- E, break_line_first by exact H10.
  rewrite strip_cr_none by exact H13. rewrite decode_map_Ch. reflexivity.
Qed.

(** For a first line (without [\r]) whose interpreter word is not [sh],
    the languages of the shebang do not depend on the rest of the file. *)
Theorem shebang_reads_first_line_only (u : Unicode) (INTERPRETERS : list (text * list string))
  (line : text) (r1 r2 : file)
  (H10 : ~ In 10%N line) (H13 : ~ In 13%N line)
  (Hsh : hd_error (split_whitespace (last (split_on 47 line) [])) <> Some (of_string "sh")) :
  Interpreters.get_languages_from_shebang u INTERPRETERS (map Ch line ++ Ch 10 :: r1) =
  Interpreters.get_languages_from_shebang u INTERPRETERS (map Ch line ++ Ch 10 :: r2).
Proof.
  unfold Interpreters.get_languages_from_shebang.
  rewrite !next_line_first by assumption.
  destruct (negb (starts_with (of_string "#!") line)); [reflexivity|].
  destruct (split_whitespace (last (split_on 47 line) [])) as [|first splits] eqn:Ew;
    [reflexivity|].
  destruct (Text.eqb first (of_string "env")); [reflexivity|].
  destruct (Text.eqb first (of_string "sh")) eqn:Es; [|reflexivity].
  exfalso. apply Hsh. apply Text.eqb_eq in Es. subst. reflexivity.
Qed.

Lemma assoc_in {K V : Type} (eqk : K -> K -> bool) (k : K) (m : list (K * V)) (v : V) :
  assoc eqk k m = Some v -> exists k', In (k', v) m.
Proof.
  induction m as [|[k' v'] m IH]; simpl; [discriminate|].
  destruct (eqk k k').
  - intros H. injection H as <-. exists k'. left. reflexivity.
  - intros H. destruct (IH H) as [k'' Hk]. exists k''. right. exact Hk.
Qed.

(** A successful shebang detection returns either no language or the whole
    language list of one entry of [INTERPRETERS]: it never returns languages
    of its own, nor a mix of several entries. *)
Theorem shebang_languages_from_one_entry (u : Unicode)
  (INTERPRETERS : list (text * list string)) (reader : file) (languages : list string)
  (H : Interpreters.get_languages_from_shebang u INTERPRETERS reader = Ok languages) :
  languages = [] \/ exists interpreter, In (interpreter, languages) INTERPRETERS.
Proof.
  revert H. unfold Interpreters.get_languages_from_shebang.
  destruct (next_line reader) as [[[line|e'] lines]|];
    [|discriminate|intros H; injection H as <-; left; reflexivity].
  destruct (negb (starts_with (of_string "#!") line)).
  { intros H. injection H as <-. left. reflexivity. }
  match goal with |- context [match ?m with Some languages => Ok languages | None => Ok [] end] =>
    destruct m as [ls|] eqn:Ea end.
  - intros H. injection H as <-. right.
    destruct (match split_whitespace (last (split_on 47 line) []) with
              | [] => None | _ :: _ => _ end) as [i|]; [|discriminate].
    exact (assoc_in _ _ _ _ Ea).
  - intros H. injection H as <-. left. reflexivity.
Qed.

(** ** [get_language_breakdown]: grouping the detections by language *)

(** [Detection::language]. *)
Definition Detection_language (d : Detection) : string :=
  match d with
  | Filename l | Extension l | Shebang l | Pipeline.Heuristics l | Pipeline.Classifier l => l
  end.

(** [language_breakdown.entry(k).or_insert_with(Vec::new).push(v)] on a
    [HashMap] modelled as an association list with distinct keys. *)
Fixpoint push_entry {V : Type} (k : string) (v : V) (m : list (string * list V))
  : list (string * list V) :=
  match m with
  | [] => [(k, [v])]
  | (k', vs) :: m' =>
      if String.eqb k k' then (k', vs ++ [v]) :: m' else (k', vs) :: push_entry k v m'
  end.

(** The [for (detection, file) in rx] loop, over the messages in the order
    they are received. *)
Definition group_detections (received : list (Detection * path))
  : list (string * list (Detection * path)) :=
  fold_left (fun m '(detection, file) => push_entry (Detection_language detection)
                                            (detection, file) m)
    received [].

(** What the walker's closures send, for the files visited: a pair for every
    path that is not a directory and that [detect] settles with [Ok (Some _)]. *)
Definition sent_detections (kb : KnowledgeBase) (u : Unicode) (fs : fs_t)
  (is_dir : path -> bool) (visited : list path) : list (Detection * path) :=
  flat_map (fun p => if is_dir p then []
                     else match detect kb u fs p with
                          | Ok (Some detection) => [(detection, p)]
                          | _ => []
                          end) visited.

Definition of_language (L : string) (x : Detection * path) : bool :=
  String.eqb (Detection_language (fst x)) L.

Lemma push_entry_assoc {V} (k L : string) (v : V) (m : list (string * list V)) :
  assoc String.eqb L (push_entry k v m) =
  if String.eqb L k then
    Some (match assoc String.eqb L m with Some vs => vs ++ [v] | None => [v] end)
  else assoc String.eqb L m.
Proof.
  induction m as [|[k' vs] m IH]; simpl.
  - destruct (String.eqb L k); reflexivity.
  - destruct (String.eqb_spec k k') as [<-|Hk].
    + simpl. destruct (String.eqb L k); reflexivity.
    + simpl. rewrite IH.
      destruct (String.eqb_spec L k') as [->|HL].
      * rewrite (proj2 (String.eqb_neq k' k) (fun e => Hk (eq_sym e))). reflexivity.
      * reflexivity.
Qed.

Lemma group_fold_assoc (L : string) (received : list (Detection * path))
  (m : list (string * list (Detection * path))) :
  assoc String.eqb L
    (fold_left (fun m '(detection, file) => push_entry (Detection_language detection)
                                               (detection, file) m) received m) =
  match assoc String.eqb L m, filter (of_language L) received with
  | None, [] => None
  | None, xs => Some xs
  | Some vs, xs => Some (vs ++ xs)
  end.
Proof.
  revert m. induction received as [|[d f] received IH]; intros m; simpl.
  - destruct (assoc String.eqb L m); [rewrite app_nil_r|]; reflexivity.
  - rewrite IH, push_entry_assoc.
    change (of_language L (d, f)) with (String.eqb (Detection_language d) L).
    destruct (String.eqb_spec (Detection_language d) L) as [Hd|HL].
    + rewrite Hd, String.eqb_refl.
      destruct (assoc String.eqb L m); [rewrite <- app_assoc|]; reflexivity.
    + rewrite (proj2 (String.eqb_neq L (Detection_language d)) (fun e => HL (eq_sym e))).
      reflexivity.
Qed.

(** The breakdown maps a language to the received detections of that
    language, in the order received, and has no entry (rather than an empty
    one) for a language with no detection. *)
Theorem group_detections_by_language (received : list (Detection * path)) (L : string) :
  assoc String.eqb L (group_detections received) =
  match filter (of_language L) received with
  | [] => None
  | xs => Some xs
  end.
Proof. unfold group_detections. rewrite group_fold_assoc. reflexivity. Qed.

(** Whatever order the threads deliver the messages in, a pair (detection,
    file) is listed under language [L] exactly when [file] was visited, is
    not a directory, and [detect] returns [Ok (Some detection)] for it with
    language [L]. *)
Theorem language_breakdown_members (kb : KnowledgeBase) (u : Unicode) (fs : fs_t)
  (is_dir : path -> bool) (visited : list path) (received : list (Detection * path))
  (Hrecv : Permutation received (sent_detections kb u fs is_dir visited))
  (L : string) (d : Detection) (p : path) :
  (exists files, assoc String.eqb L (group_detections received) = Some files /\ In (d, p) files)
  <-> (In p visited /\ is_dir p = false /\ detect kb u fs p = Ok (Some d) /\
       Detection_language d = L).
Proof.
  unfold group_detections. rewrite group_fold_assoc. simpl.
  assert (Hin : In (d, p) (filter (of_language L) received) <->
                In p visited /\ is_dir p = false /\ detect kb u fs p = Ok (Some d) /\
                Detection_language d = L).
  { rewrite filter_In. unfold of_language. simpl fst. rewrite String.eqb_eq.
    split.
    - intros [H1 H2]. apply (Permutation_in _ Hrecv) in H1.
      unfold sent_detections in H1. apply in_flat_map in H1 as [p' [Hp' Hx]].
      destruct (is_dir p') eqn:Ed; [destruct Hx|].
      destruct (detect kb u fs p') as [[d'|]|e] eqn:Ed'; simpl in Hx; try contradiction; destruct Hx as [Hx|[]].
      injection Hx as <- <-. auto.
    - intros [H1 [H2 [H3 H4]]]. split; [|exact H4].
      apply (Permutation_in _ (Permutation_sym Hrecv)). unfold sent_detections.
      apply in_flat_map. exists p. split; [exact H1|]. rewrite H2, H3. left. reflexivity. }
  rewrite <- Hin.
  destruct (filter (of_language L) received) as [|x xs].
  - split; [intros [files [H _]]; discriminate|intros []].
  - split; [intros [files [H Hf]]; injection H as <-; exact Hf|].
    intros Hx. exists (x :: xs). split; [reflexivity|exact Hx].
Qed.

(** ** Instances of the hypotheses above *)

Definition example_unicode : Unicode :=
  {| u_alphabetic := fun _ => false; u_numeric := fun _ => false; u_word := fun _ => false |}.

Definition example_kb : KnowledgeBase :=
  {| FILENAMES := [(of_string "Makefile", "Makefile"%string)];
     EXTENSIONS := [(of_string ".rs", ["Rust"%string])];
     INTERPRETERS := [(of_string "python", ["Python"%string])];
     DISAMBIGUATIONS := [];
     TOKEN_LOG_PROBABILITIES := [];
     pcre_is_match := fun _ _ => None |}.

Definition example_fs : fs_t :=
  fun p => if units_eqb p (file_of_string "bin/script")
           then Some (file_of_string "#!/usr/bin/python
print(1)
")
           else None.

(** [Main.RS] and [main.rs] agree up to ASCII case. *)
Lemma get_extension_ascii_case_insensitive_witness :
  map to_ascii_lowercase (of_string "Main.RS") = map to_ascii_lowercase (of_string "main.rs") /\
  Extensions.get_extension (EXTENSIONS example_kb) (of_string "Main.RS") =
  Extensions.get_extension (EXTENSIONS example_kb) (of_string "main.rs").
Proof.
  split; [reflexivity|].
  apply get_extension_ascii_case_insensitive. reflexivity.
Defined.

(** A space splits [fn main]. *)
Lemma tokenize_split_at_whitespace_witness :
  is_whitespace 32 = true /\
  Logos.tokenize (of_string "fn" ++ 32%N :: of_string "main") =
  Logos.tokenize (of_string "fn") ++ Logos.tokenize (of_string "main").
Proof.
  split; [reflexivity|].
  apply tokenize_split_at_whitespace. reflexivity.
Defined.

(** [#!/usr/bin/python] followed by two different bodies. *)
Lemma shebang_reads_first_line_only_witness :
  ~ In 10%N (of_string "#!/usr/bin/python") /\ ~ In 13%N (of_string "#!/usr/bin/python") /\
  hd_error (split_whitespace (last (split_on 47 (of_string "#!/usr/bin/python")) []))
    <> Some (of_string "sh") /\
  Interpreters.get_languages_from_shebang example_unicode (INTERPRETERS example_kb)
    (map Ch (of_string "#!/usr/bin/python") ++ Ch 10 :: []) =
  Interpreters.get_languages_from_shebang example_unicode (INTERPRETERS example_kb)
    (map Ch (of_string "#!/usr/bin/python") ++ Ch 10 :: file_of_string "print(1)").
Proof.
  assert (H10 : ~ In 10%N (of_string "#!/usr/bin/python"))
    by (vm_compute; intuition discriminate).
  assert (H13 : ~ In 13%N (of_string "#!/usr/bin/python"))
    by (vm_compute; intuition discriminate).
  assert (Hsh : hd_error (split_whitespace (last (split_on 47 (of_string "#!/usr/bin/python")) []))
                  <> Some (of_string "sh"))
    by (intros H; vm_compute in H; discriminate H).
  split; [exact H10|split; [exact H13|split; [exact Hsh|]]].
  apply shebang_reads_first_line_only; assumption.
Defined.

(** A script without extension, detected by its shebang. *)
Lemma detect_language_provenance_witness :
  detect example_kb example_unicode example_fs (file_of_string "bin/script") =
    Ok (Some (Shebang "Python"%string)) /\
  from_extension_or_shebang example_kb example_unicode example_fs
    (file_of_string "bin/script") "Python"%string.
Proof.
  assert (H : detect example_kb example_unicode example_fs (file_of_string "bin/script") =
                Ok (Some (Shebang "Python"%string))) by (vm_compute; reflexivity).
  split; [exact H|].
  exact (detect_language_provenance example_kb example_unicode example_fs
           (file_of_string "bin/script") (Shebang "Python"%string) H).
Defined.

(** Two files, a directory and a file [detect] leaves undetected, with the
    messages received in the reverse order of the walk. *)
Lemma language_breakdown_members_witness :
  let visited := [file_of_string "src/main.rs"; file_of_string "src";
                  file_of_string "bin/script"; file_of_string "notes"] in
  let is_dir := fun p => units_eqb p (file_of_string "src") in
  let received := [(Shebang "Python"%string, file_of_string "bin/script");
                   (Extension "Rust"%string, file_of_string "src/main.rs")] in
  Permutation received (sent_detections example_kb example_unicode example_fs is_dir visited) /\
  ((exists files, assoc String.eqb "Rust"%string (group_detections received) = Some files /\
                  In (Extension "Rust"%string, file_of_string "src/main.rs") files) <->
   (In (file_of_string "src/main.rs") visited /\ is_dir (file_of_string "src/main.rs") = false /\
    detect example_kb example_unicode example_fs (file_of_string "src/main.rs") =
      Ok (Some (Extension "Rust"%string)) /\
    Detection_language (Extension "Rust"%string) = "Rust"%string)).
Proof.
  intros visited is_dir received.
  assert (Hp : Permutation received
                 (sent_detections example_kb example_unicode example_fs is_dir visited)).
  { vm_compute. apply perm_swap. }
  split; [exact Hp|].
  exact (language_breakdown_members example_kb example_unicode example_fs is_dir visited
           received Hp "Rust"%string (Extension "Rust"%string) (file_of_string "src/main.rs")).
Defined.

(** A [python] shebang, answered by the [python] entry. *)
Lemma shebang_languages_from_one_entry_witness :
  Interpreters.get_languages_from_shebang example_unicode (INTERPRETERS example_kb)
    (file_of_string "#!/usr/bin/python") = Ok ["Python"%string] /\
  (["Python"%string] = [] \/
   exists interpreter, In (interpreter, ["Python"%string]) (INTERPRETERS example_kb)).
Proof.
  assert (H : Interpreters.get_languages_from_shebang example_unicode (INTERPRETERS example_kb)
                (file_of_string "#!/usr/bin/python") = Ok ["Python"%string])
    by (vm_compute; reflexivity).
  split; [exact H|].
  exact (shebang_languages_from_one_entry example_unicode (INTERPRETERS example_kb)
           (file_of_string "#!/usr/bin/python") ["Python"%string] H).
Defined.
